(** * screenshot: a shallow embedding of [main.go]

    The program reads a list of URLs, drives a browser to capture one
    screenshot per URL from a fixed pool of workers, derives the output file
    name from the URL ([makeFilepath]) and records failures in a log file
    ([handleError]).

    Go strings are byte strings; they are modelled by [string], whose
    characters ([ascii]) are bytes.  The parts of the Go standard library
    that [main.go] calls ([strings], [unicode/utf8], [regexp], [net/url],
    [flag], [bufio]) are transcribed in modules of their own, restricted to
    the functions the program uses. *)

From Stdlib Require Import ZArith NArith Ascii String List Lia Bool.
From stdpp Require Import gmap strings list.

#[local] Arguments String.append : simpl nomatch.

(** ** Bytes *)

Definition byteVal (c : ascii) : N := N_of_ascii c.

Definition between (lo hi c : ascii) : bool :=
  ((byteVal lo <=? byteVal c) && (byteVal c <=? byteVal hi))%N.

(** The double quote character. *)
Definition dquote : ascii := ascii_of_N 34.

Definition isLower (c : ascii) : bool := between "a" "z" c.
Definition isUpper (c : ascii) : bool := between "A" "Z" c.
Definition isDigit (c : ascii) : bool := between "0" "9" c.
Definition isAlnum (c : ascii) : bool := isLower c || isUpper c || isDigit c.

(** [c] is one of the bytes of [set]. *)
Fixpoint oneOf (set : string) (c : ascii) : bool :=
  match set with
  | EmptyString => false
  | String d set' => Ascii.eqb c d || oneOf set' c
  end.

(** ** Package [strings] *)
Module GoStrings.

(** [s[i:j]] and [s[i:]]. *)
Definition slice (s : string) (i j : nat) : string := String.substring i (j - i) s.
Definition sliceFrom (s : string) (i : nat) : string :=
  String.substring i (String.length s - i) s.

Definition HasPrefix (s prefix : string) : bool := String.prefix prefix s.

Definition HasSuffix (s suffix : string) : bool :=
  (String.length suffix <=? String.length s)%nat
  && String.eqb (sliceFrom s (String.length s - String.length suffix)) suffix.

Definition TrimSuffix (s suffix : string) : string :=
  if HasSuffix s suffix then slice s 0 (String.length s - String.length suffix) else s.

(** Index of the first instance of [sep] in [s]. *)
Definition Index (s sep : string) : option nat := String.index 0 sep s.

Definition Contains (s sep : string) : bool :=
  match Index s sep with Some _ => true | None => false end.

(** Index of the last instance of the byte [c] in [s]. *)
Fixpoint LastIndexByte (s : string) (c : ascii) : option nat :=
  match s with
  | EmptyString => None
  | String d s' =>
      match LastIndexByte s' c with
      | Some i => Some (S i)
      | None => if Ascii.eqb d c then Some 0%nat else None
      end
  end.

(** Number of instances of the byte [c] in [s]. *)
Fixpoint CountByte (s : string) (c : ascii) : nat :=
  match s with
  | EmptyString => 0
  | String d s' => (if Ascii.eqb d c then 1 else 0) + CountByte s' c
  end.

(** [Cut s sep] slices [s] around the first instance of [sep]. *)
Definition Cut (s sep : string) : string * string * bool :=
  match Index s sep with
  | Some i => (slice s 0 i, sliceFrom s (i + String.length sep), true)
  | None => (s, EmptyString, false)
  end.

Definition lowerByte (c : ascii) : ascii :=
  if isUpper c then ascii_of_N (byteVal c + 32) else c.

(** [ToLower] on the ASCII letters; the program only lowers URL schemes,
    which [url.getScheme] restricts to ASCII. *)
Fixpoint ToLower (s : string) : string :=
  match s with
  | EmptyString => EmptyString
  | String c s' => String (lowerByte c) (ToLower s')
  end.

End GoStrings.

(** ** Package [unicode/utf8] *)
Module Utf8.

(** Continuation bytes lie in [[0x80, 0xBF]]. *)
Definition inBytes (lo hi : N) (c : ascii) : bool :=
  ((lo <=? byteVal c) && (byteVal c <=? hi))%N.

Definition isCont (c : ascii) : bool := inBytes 128 191 c.

(** The [first] table: for a leading byte, the length of the sequence and
    the range accepted for its second byte; [None] for ASCII bytes and for
    bytes that start no sequence. *)
Definition first (c : ascii) : option (nat * (N * N)) :=
  let b := byteVal c in
  let entry (sz : nat) (lo hi : N) := Some (sz, (lo, hi)) in
  if (b <? 194)%N then None
  else if (b <=? 223)%N then entry 2%nat 128%N 191%N
  else if (b =? 224)%N then entry 3%nat 160%N 191%N
  else if (b <=? 236)%N then entry 3%nat 128%N 191%N
  else if (b =? 237)%N then entry 3%nat 128%N 159%N
  else if (b <=? 239)%N then entry 3%nat 128%N 191%N
  else if (b =? 240)%N then entry 4%nat 144%N 191%N
  else if (b <=? 243)%N then entry 4%nat 128%N 191%N
  else if (b =? 244)%N then entry 4%nat 128%N 143%N
  else None.

(** Width in bytes of the first rune of [s], as [DecodeRuneInString]
    reports it: an ill-formed or truncated sequence is one byte wide. *)
Definition runeWidth (s : string) : nat :=
  match s with
  | EmptyString => 0
  | String s0 rest =>
      match first s0 with
      | None => 1
      | Some (sz, (lo, hi)) =>
          match rest with
          | EmptyString => 1
          | String s1 rest1 =>
              if negb (inBytes lo hi s1) then 1
              else if (sz <=? 2)%nat then 2
              else
                match rest1 with
                | EmptyString => 1
                | String s2 rest2 =>
                    if negb (isCont s2) then 1
                    else if (sz <=? 3)%nat then 3
                    else
                      match rest2 with
                      | EmptyString => 1
                      | String s3 _ => if negb (isCont s3) then 1 else 4
                      end
                end
          end
      end
  end.

End Utf8.

(** ** Package [regexp]

    The program uses four patterns: two negated character classes of ASCII
    bytes, and the repetitions ["-+"] and ["/+"], each with the replacement
    ["-"] or ["/"].  The matcher walks the subject rune by rune, so a rune
    outside a class is replaced as a whole, whatever its width. *)
Module Regexp.

(** [ReplaceAllString] for a pattern [[^class]]: every rune that is not an
    ASCII byte of [class] becomes [repl].  [skip] counts the bytes of the
    current rune that are still to be passed over. *)
Fixpoint replaceOutside (class : ascii -> bool) (repl : string) (skip : nat)
    (s : string) : string :=
  match s with
  | EmptyString => EmptyString
  | String c s' =>
      match skip with
      | S k => replaceOutside class repl k s'
      | O =>
          if (byteVal c <? 128)%N && class c
          then String c (replaceOutside class repl 0 s')
          else repl +:+ replaceOutside class repl (Utf8.runeWidth s - 1) s'
      end
  end.

Definition ReplaceAllOutside (class : ascii -> bool) (src repl : string) : string :=
  replaceOutside class repl 0 src.

(** [ReplaceAllString] for a pattern [c+]: every maximal run of the byte
    [c] becomes [repl].  [inRun] tells that the previous byte was [c]. *)
Fixpoint replaceRuns (c : ascii) (repl : string) (inRun : bool) (s : string) : string :=
  match s with
  | EmptyString => EmptyString
  | String d s' =>
      if Ascii.eqb d c
      then (if inRun then replaceRuns c repl true s'
            else repl +:+ replaceRuns c repl true s')
      else String d (replaceRuns c repl false s')
  end.

Definition ReplaceAllRuns (c : ascii) (src repl : string) : string :=
  replaceRuns c repl false src.

End Regexp.

(** ** Results of fallible calls *)

Inductive result (E A : Type) : Type :=
| Ok (a : A)
| Err (e : E).
Arguments Ok {E A} a.
Arguments Err {E A} e.

Definition bind {E A B} (r : result E A) (k : A -> result E B) : result E B :=
  match r with
  | Ok a => k a
  | Err e => Err e
  end.

Notation "'try' x <- r ; k" := (bind r (fun x => k))
  (at level 10, x name, r at level 100, k at level 200).

(** ** Package [net/url]

    [Parse], [EscapedPath] and [Hostname] with the functions they call, as
    in Go 1.20. *)
Module Url.
Import GoStrings.

(** The errors [parse] reports, named after their messages. *)
Inductive parseError : Type :=
| InvalidControlCharacter
| MissingProtocolScheme
| ColonInFirstPathSegment
| MissingBracketInHost
| InvalidPort (colonPort : string)
| InvalidUserinfo
| EscapeError (s : string)
| InvalidHostError (s : string).

(** [*url.Error]: the operation, the URL it was given and the cause. *)
Record Error := mkError { Op : string; ErrURL : string; Cause : parseError }.

Record Userinfo := mkUserinfo { username : string; password : option string }.

Record URL := mkURL {
  Scheme : string;
  Opaque : string;
  User : option Userinfo;
  Host : string;
  Path : string;
  RawPath : string;
  OmitHost : bool;
  ForceQuery : bool;
  RawQuery : string;
  Fragment : string;
}.

Inductive encoding :=
| encodePath | encodePathSegment | encodeHost | encodeZone
| encodeUserPassword | encodeQueryComponent | encodeFragment.

Definition isHostOrZone (mode : encoding) : bool :=
  match mode with encodeHost | encodeZone => true | _ => false end.

Definition ishex (c : ascii) : bool :=
  isDigit c || between "a" "f" c || between "A" "F" c.

Definition unhex (c : ascii) : N :=
  if isDigit c then byteVal c - byteVal "0"
  else if between "a" "f" c then byteVal c - byteVal "a" + 10
  else if between "A" "F" c then byteVal c - byteVal "A" + 10
  else 0.

Definition upperhex (n : N) : ascii :=
  if (n <? 10)%N then ascii_of_N (byteVal "0" + n) else ascii_of_N (byteVal "A" + (n - 10)).

(** Whether the byte [c] must be escaped when it appears in the part of a
    URL that [mode] names. *)
Definition shouldEscape (c : ascii) (mode : encoding) : bool :=
  if isAlnum c then false
  else if isHostOrZone mode && (oneOf "!$&'()*+,;=:[]<>" c || Ascii.eqb c dquote) then false
  else if oneOf "-_.~" c then false
  else if oneOf "$&+,/:;=?@" c
          && match mode with
             | encodePath | encodePathSegment | encodeUserPassword
             | encodeQueryComponent | encodeFragment => true
             | _ => false
             end
  then match mode with
       | encodePath => Ascii.eqb c "?"
       | encodePathSegment => oneOf "/;,?" c
       | encodeUserPassword => oneOf "@/?:" c
       | encodeQueryComponent => true
       | _ => false
       end
  else if match mode with encodeFragment => oneOf "!()*" c | _ => false end then false
  else true.

(** First pass of [unescape]: the escapes are well formed and the bytes
    are allowed in [mode]. *)
Fixpoint unescapeCheck (mode : encoding) (s : string) : option parseError :=
  match s with
  | EmptyString => None
  | String "%" rest =>
      match rest with
      | String h1 (String h2 rest') =>
          if negb (ishex h1 && ishex h2) then Some (EscapeError (slice s 0 3))
          else
            let esc := slice s 0 3 in
            if match mode with encodeHost => true | _ => false end
               && (unhex h1 <? 8)%N && negb (String.eqb esc "%25")
            then Some (EscapeError esc)
            else
              let v := ascii_of_N (16 * unhex h1 + unhex h2) in
              if match mode with encodeZone => true | _ => false end
                 && negb (String.eqb esc "%25") && negb (Ascii.eqb v " ")
                 && shouldEscape v encodeHost
              then Some (EscapeError esc)
              else unescapeCheck mode rest'
      | _ => Some (EscapeError (slice s 0 3))
      end
  | String c rest =>
      if negb (Ascii.eqb c "+") && isHostOrZone mode && (byteVal c <? 128)%N
         && shouldEscape c encodeHost
      then Some (InvalidHostError (String c EmptyString))
      else unescapeCheck mode rest
  end.

(** Second pass of [unescape]: the escapes are decoded. *)
Fixpoint unescapeDecode (mode : encoding) (s : string) : string :=
  match s with
  | EmptyString => EmptyString
  | String "%" (String h1 (String h2 rest')) =>
      String (ascii_of_N (16 * unhex h1 + unhex h2)) (unescapeDecode mode rest')
  | String "+" rest =>
      String (match mode with encodeQueryComponent => " " | _ => "+" end)%char
             (unescapeDecode mode rest)
  | String c rest => String c (unescapeDecode mode rest)
  end.

Definition unescape (s : string) (mode : encoding) : result parseError string :=
  match unescapeCheck mode s with
  | Some e => Err e
  | None => Ok (unescapeDecode mode s)
  end.

Fixpoint escape (s : string) (mode : encoding) : string :=
  match s with
  | EmptyString => EmptyString
  | String c s' =>
      if Ascii.eqb c " " && match mode with encodeQueryComponent => true | _ => false end
      then String "+" (escape s' mode)
      else if shouldEscape c mode
      then String "%" (String (upperhex (byteVal c / 16))
                         (String (upperhex (byteVal c mod 16)) (escape s' mode)))
      else String c (escape s' mode)
  end.

(** [validEncoded] reports whether [s] is a valid encoded path or
    fragment according to [mode]. *)
Fixpoint validEncoded (s : string) (mode : encoding) : bool :=
  match s with
  | EmptyString => true
  | String c s' =>
      (oneOf "!$&'()*+,;=:@[]%" c || negb (shouldEscape c mode)) && validEncoded s' mode
  end.

Fixpoint stringContainsCTLByte (s : string) : bool :=
  match s with
  | EmptyString => false
  | String c s' =>
      (byteVal c <? byteVal " ")%N || (byteVal c =? 127)%N || stringContainsCTLByte s'
  end.

(** [getSchemeFrom i s]: the loop of [getScheme] at index [i] with [s] the
    bytes from [i] on; the result is the index of the colon that ends the
    scheme, if there is a scheme. *)
Fixpoint getSchemeFrom (i : nat) (s : string) : result parseError (option nat) :=
  match s with
  | EmptyString => Ok None
  | String c s' =>
      if isLower c || isUpper c then getSchemeFrom (S i) s'
      else if isDigit c || oneOf "+-." c
      then (if Nat.eqb i 0 then Ok None else getSchemeFrom (S i) s')
      else if Ascii.eqb c ":"
      then (if Nat.eqb i 0 then Err MissingProtocolScheme else Ok (Some i))
      else Ok None
  end.

Definition getScheme (rawURL : string) : result parseError (string * string) :=
  try r <- getSchemeFrom 0 rawURL ;
  match r with
  | Some i => Ok (slice rawURL 0 i, sliceFrom rawURL (S i))
  | None => Ok (EmptyString, rawURL)
  end.

Fixpoint allDigits (s : string) : bool :=
  match s with
  | EmptyString => true
  | String c s' => isDigit c && allDigits s'
  end.

Definition validOptionalPort (port : string) : bool :=
  match port with
  | EmptyString => true
  | String c rest => Ascii.eqb c ":" && allDigits rest
  end.

Fixpoint validUserinfo (s : string) : bool :=
  match s with
  | EmptyString => true
  | String r s' => (isAlnum r || oneOf "-._:~!$&'()*+,;=%@" r) && validUserinfo s'
  end.

Definition parseHost (host : string) : result parseError string :=
  let plain := unescape host encodeHost in
  if HasPrefix host "[" then
    match LastIndexByte host "]" with
    | None => Err MissingBracketInHost
    | Some i =>
        let colonPort := sliceFrom host (S i) in
        if negb (validOptionalPort colonPort) then Err (InvalidPort colonPort)
        else
          match Index (slice host 0 i) "%25" with
          | Some zone =>
              try host1 <- unescape (slice host 0 zone) encodeHost ;
              try host2 <- unescape (slice host zone i) encodeZone ;
              try host3 <- unescape (sliceFrom host i) encodeHost ;
              Ok (host1 +:+ host2 +:+ host3)
          | None => plain
          end
    end
  else
    match LastIndexByte host ":" with
    | Some i =>
        let colonPort := sliceFrom host i in
        if negb (validOptionalPort colonPort) then Err (InvalidPort colonPort)
        else plain
    | None => plain
    end.

Definition parseAuthority (authority : string)
    : result parseError (option Userinfo * string) :=
  match LastIndexByte authority "@" with
  | None =>
      try host <- parseHost authority ;
      Ok (None, host)
  | Some i =>
      try host <- parseHost (sliceFrom authority (S i)) ;
      let userinfo := slice authority 0 i in
      if negb (validUserinfo userinfo) then Err InvalidUserinfo
      else if negb (Contains userinfo ":") then
        try userinfo' <- unescape userinfo encodeUserPassword ;
        Ok (Some (mkUserinfo userinfo' None), host)
      else
        let '(name, pass, _) := Cut userinfo ":" in
        try name' <- unescape name encodeUserPassword ;
        try pass' <- unescape pass encodeUserPassword ;
        Ok (Some (mkUserinfo name' (Some pass')), host)
  end.

(** [setPath] sets [Path] and, when the default encoding of the path
    differs from [p], [RawPath]. *)
Definition setPath (u : URL) (p : string) : result parseError URL :=
  try path <- unescape p encodePath ;
  let escp := escape path encodePath in
  Ok (mkURL (Scheme u) (Opaque u) (User u) (Host u) path
        (if String.eqb p escp then EmptyString else p)
        (OmitHost u) (ForceQuery u) (RawQuery u) (Fragment u)).

(** [parse rawURL false]: the URL without its fragment. *)
Definition parse (rawURL : string) : result parseError URL :=
  if stringContainsCTLByte rawURL then Err InvalidControlCharacter
  else if String.eqb rawURL "*"
  then Ok (mkURL EmptyString EmptyString None EmptyString "*" EmptyString
             false false EmptyString EmptyString)
  else
    try sr <- getScheme rawURL ;
    let scheme := ToLower (fst sr) in
    let '(rest, forceQuery, rawQuery) :=
      if HasSuffix (snd sr) "?" && Nat.eqb (CountByte (snd sr) "?") 1
      then (slice (snd sr) 0 (String.length (snd sr) - 1), true, EmptyString)
      else let '(before, after, _) := Cut (snd sr) "?" in (before, false, after) in
    let noScheme := String.eqb scheme EmptyString in
    if negb (HasPrefix rest "/") && negb noScheme
    then Ok (mkURL scheme rest None EmptyString EmptyString EmptyString
               false forceQuery rawQuery EmptyString)
    else if negb (HasPrefix rest "/")
            && Contains (fst (fst (Cut rest "/"))) ":"
    then Err ColonInFirstPathSegment
    else
      try auth <-
        (if (negb noScheme || negb (HasPrefix rest "///")) && HasPrefix rest "//"
         then
           let authority := sliceFrom rest 2 in
           let '(authority, rest') :=
             match Index authority "/" with
             | Some i => (slice authority 0 i, sliceFrom authority i)
             | None => (authority, EmptyString)
             end in
           try uh <- parseAuthority authority ;
           Ok (fst uh, snd uh, false, rest')
         else Ok (None, EmptyString, negb noScheme && HasPrefix rest "/", rest)) ;
      let '(user, host, omitHost, rest) := auth in
      setPath (mkURL scheme EmptyString user host EmptyString EmptyString
                 omitHost forceQuery rawQuery EmptyString) rest.

Definition setFragment (u : URL) (f : string) : result parseError URL :=
  try frag <- unescape f encodeFragment ;
  Ok (mkURL (Scheme u) (Opaque u) (User u) (Host u) (Path u) (RawPath u)
        (OmitHost u) (ForceQuery u) (RawQuery u) frag).

(** [Parse] parses a raw URL into a URL structure. *)
Definition Parse (rawURL : string) : result Error URL :=
  let '(u, frag, _) := Cut rawURL "#" in
  match parse u with
  | Err e => Err (mkError "parse" u e)
  | Ok url =>
      if String.eqb frag EmptyString then Ok url
      else
        match setFragment url frag with
        | Err e => Err (mkError "parse" rawURL e)
        | Ok url' => Ok url'
        end
  end.

Definition EscapedPath (u : URL) : string :=
  let fromRaw :=
    if negb (String.eqb (RawPath u) EmptyString) && validEncoded (RawPath u) encodePath
    then match unescape (RawPath u) encodePath with
         | Ok p => if String.eqb p (Path u) then Some (RawPath u) else None
         | Err _ => None
         end
    else None in
  match fromRaw with
  | Some raw => raw
  | None => if String.eqb (Path u) "*" then "*" else escape (Path u) encodePath
  end.

Definition splitHostPort (hostPort : string) : string * string :=
  let '(host, port) :=
    match LastIndexByte hostPort ":" with
    | Some colon =>
        if validOptionalPort (sliceFrom hostPort colon)
        then (slice hostPort 0 colon, sliceFrom hostPort (S colon))
        else (hostPort, EmptyString)
    | None => (hostPort, EmptyString)
    end in
  if HasPrefix host "[" && HasSuffix host "]"
  then (slice host 1 (String.length host - 1), port)
  else (host, port).

Definition Hostname (u : URL) : string := fst (splitHostPort (Host u)).

End Url.

(** ** The path sanitizer *)

(** The class [[a-zA-Z0-9_.%-]]. *)
Definition pathClass (c : ascii) : bool := isAlnum c || oneOf "_.%-" c.

(** The class [[a-zA-Z0-9_.%/-]]. *)
Definition savePathClass (c : ascii) : bool := isAlnum c || oneOf "_.%/-" c.

(** The passes applied to the composed path: the replacement of the bytes
    outside [savePathClass], of the runs of dashes and of the runs of
    slashes, and the removal of one trailing slash. *)
Definition cleanSavePath (savePath : string) : string :=
  let savePath := Regexp.ReplaceAllOutside savePathClass savePath "-" in
  let savePath := Regexp.ReplaceAllRuns "-" savePath "-" in
  let savePath := Regexp.ReplaceAllRuns "/" savePath "/" in
  GoStrings.TrimSuffix savePath "/".

Definition makeFilepath (prefix requestURL : string) : result Url.Error string :=
  try u <- Url.Parse requestURL ;
  let requestPath := Url.EscapedPath u in
  let requestPath := if String.eqb requestPath "/" then "/index" else requestPath in
  let requestPath := Regexp.ReplaceAllOutside pathClass requestPath "-" in
  let savePath := prefix +:+ "/" +:+ Url.Hostname u +:+ requestPath in
  Ok (cleanSavePath savePath).

(** ** Functions of the standard library taken as parameters *)

Class Library := {
  (** [strconv.Quote]: a double-quoted Go string literal. *)
  strconv_Quote : string -> string;
  (** [strconv.ParseInt s 0 strconv.IntSize]: an integer literal. *)
  strconv_ParseInt : string -> option Z;
  (** [filepath.Dir]: all but the last element of a path, cleaned. *)
  filepath_Dir : string -> string;
}.

(** The line feed. *)
Definition LF : string := String (ascii_of_N 10) EmptyString.

(** ** Errors *)

Inductive error : Type :=
| UrlError (e : Url.Error)
| PathError (op path cause : string)
| DeadlineExceeded
| OtherError (msg : string).

Section ErrorText.
Context {lib : Library}.

Definition parseErrorText (e : Url.parseError) : string :=
  match e with
  | Url.InvalidControlCharacter => "net/url: invalid control character in URL"
  | Url.MissingProtocolScheme => "missing protocol scheme"
  | Url.ColonInFirstPathSegment => "first path segment in URL cannot contain colon"
  | Url.MissingBracketInHost => "missing ']' in host"
  | Url.InvalidPort p => "invalid port " +:+ strconv_Quote p +:+ " after host"
  | Url.InvalidUserinfo => "net/url: invalid userinfo"
  | Url.EscapeError s => "invalid URL escape " +:+ strconv_Quote s
  | Url.InvalidHostError s => "invalid character " +:+ strconv_Quote s +:+ " in host name"
  end.

(** The method [Error] of an error value. *)
Definition errorText (err : error) : string :=
  match err with
  | UrlError e =>
      Url.Op e +:+ " " +:+ strconv_Quote (Url.ErrURL e) +:+ ": " +:+ parseErrorText (Url.Cause e)
  | PathError op path cause => op +:+ " " +:+ path +:+ ": " +:+ cause
  | DeadlineExceeded => "context deadline exceeded"
  | OtherError msg => msg
  end.
End ErrorText.

(** ** The world outside the process *)

Record World := mkWorld {
  files : gmap string string;  (** the regular files and their contents *)
  dirs : gset string;          (** the directories *)
  refused : gset string;       (** the paths the system refuses to create or open *)
  stdin : string;
  stdout : string;
  stderr : string;
  browserStart : option error; (** the error of the browser at start, if it fails *)
}.

Definition setFiles (w : World) (fs : gmap string string) : World :=
  mkWorld fs (dirs w) (refused w) (stdin w) (stdout w) (stderr w) (browserStart w).
Definition setDirs (w : World) (ds : gset string) : World :=
  mkWorld (files w) ds (refused w) (stdin w) (stdout w) (stderr w) (browserStart w).
Definition printOut (w : World) (s : string) : World :=
  mkWorld (files w) (dirs w) (refused w) (stdin w) (stdout w +:+ s) (stderr w) (browserStart w).
Definition printErr (w : World) (s : string) : World :=
  mkWorld (files w) (dirs w) (refused w) (stdin w) (stdout w) (stderr w +:+ s) (browserStart w).

(** ** Package [os] and [io/ioutil] *)
Module Os.

Definition isFile (w : World) (path : string) : bool := bool_decide (path ∈ dom (files w)).
Definition isDir (w : World) (path : string) : bool := bool_decide (path ∈ dirs w).
Definition isRefused (w : World) (path : string) : bool := bool_decide (path ∈ refused w).

Definition MkdirAll (path : string) (w : World) : option error * World :=
  if isRefused w path then (Some (PathError "mkdir" path "permission denied"), w)
  else if isFile w path then (Some (PathError "mkdir" path "not a directory"), w)
  else (None, setDirs w ({[path]} ∪ dirs w)).

(** An open file: its path, whether writes go to its end, and the offset
    of the next write otherwise. *)
Record File := mkFile { name : string; appendMode : bool; offset : nat }.

Definition content (w : World) (path : string) : string :=
  default EmptyString (files w !! path).

(** [OpenFile path (O_CREATE|O_WRONLY) 0644], with [O_APPEND] or
    [O_TRUNC] or neither. *)
Definition OpenFile (path : string) (append trunc : bool) (w : World)
    : result error File * World :=
  if isRefused w path then (Err (PathError "open" path "permission denied"), w)
  else if isDir w path then (Err (PathError "open" path "is a directory"), w)
  else (Ok (mkFile path append 0),
        setFiles w (<[path := if trunc then EmptyString else content w path]> (files w))).

(** A write of [data] through [f]. *)
Definition Write (f : File) (data : string) (w : World) : File * World :=
  let old := content w (name f) in
  if appendMode f
  then (f, setFiles w (<[name f := old +:+ data]> (files w)))
  else
    let before := GoStrings.slice old 0 (offset f) in
    let after := GoStrings.sliceFrom old (offset f + String.length data) in
    (mkFile (name f) false (offset f + String.length data),
     setFiles w (<[name f := before +:+ data +:+ after]> (files w))).

(** [ioutil.WriteFile path data 0644]. *)
Definition WriteFile (path data : string) (w : World) : option error * World :=
  match OpenFile path false true w with
  | (Err e, w') => (Some e, w')
  | (Ok f, w') => (None, snd (Write f data w'))
  end.

(** [os.Open]: the content of the file to read. *)
Definition Open (path : string) (w : World) : result error string :=
  if isRefused w path then Err (PathError "open" path "permission denied")
  else match files w !! path with
       | Some c => Ok c
       | None => Err (PathError "open" path "no such file or directory")
       end.

(** [os.Create]. *)
Definition Create (path : string) (w : World) : result error File * World :=
  OpenFile path false true w.

End Os.

(** ** Package [bufio] *)
Module Bufio.

(** [MaxScanTokenSize]: the size of the largest buffer of a [Scanner]. *)
Definition MaxScanTokenSize : nat := 64 * 1024.

(** [dropCR] drops a terminal carriage return. *)
Definition dropCR (data : string) : string :=
  GoStrings.TrimSuffix data (String (ascii_of_N 13) EmptyString).

(** The tokens that the calls of [Scan] deliver with the split function
    [ScanLines]: [line] holds the bytes of the current line read so far.
    A line that fills the buffer without its line feed ends the scan. *)
Fixpoint scanFrom (line : string) (input : string) : list string :=
  match input with
  | EmptyString =>
      if String.eqb line EmptyString then []
      else if (MaxScanTokenSize <=? String.length line)%nat then []
      else [dropCR line]
  | String c input' =>
      if Ascii.eqb c (ascii_of_N 10)
      then (if (MaxScanTokenSize <=? String.length line)%nat then []
            else dropCR line :: scanFrom EmptyString input')
      else scanFrom (line +:+ String c EmptyString) input'
  end.

Definition scanLines (input : string) : list string := scanFrom EmptyString input.

End Bufio.

(** ** Package [flag] and the flags of the program *)
Module Flag.

Record Flags := mkFlags {
  overwrite : bool;
  output : string;
  inFile : string;
  concurrency : Z;
  visible : bool;
  cpuprofile : string;
}.

(** The values the flags are declared with. *)
Definition defaults : Flags := mkFlags false "out" "input" 2 false EmptyString.

(** The variables the flags are bound to. *)
Inductive var := Overwrite | Output | InFile | Concurrency | Visible | Cpuprofile.

(** The flags declared by [main], by name. *)
Definition formal (name : string) : option var :=
  if String.eqb name "overwrite" || String.eqb name "w" then Some Overwrite
  else if String.eqb name "output" || String.eqb name "o" then Some Output
  else if String.eqb name "input" || String.eqb name "i" then Some InFile
  else if String.eqb name "concurrency" || String.eqb name "c" then Some Concurrency
  else if String.eqb name "visible" || String.eqb name "v" then Some Visible
  else if String.eqb name "profile" || String.eqb name "p" then Some Cpuprofile
  else None.

Definition isBoolFlag (v : var) : bool :=
  match v with Overwrite | Visible => true | _ => false end.

(** [strconv.ParseBool]. *)
Definition ParseBool (s : string) : option bool :=
  if existsb (String.eqb s) ["1"; "t"; "T"; "TRUE"; "true"; "True"] then Some true
  else if existsb (String.eqb s) ["0"; "f"; "F"; "FALSE"; "false"; "False"] then Some false
  else None.

Section Parse.
Context {lib : Library}.

(** The method [Set] of the value of a flag. *)
Definition set (v : var) (value : string) (f : Flags) : option Flags :=
  match v with
  | Overwrite =>
      b ← ParseBool value;
      Some (mkFlags b (output f) (inFile f) (concurrency f) (visible f) (cpuprofile f))
  | Output =>
      Some (mkFlags (overwrite f) value (inFile f) (concurrency f) (visible f) (cpuprofile f))
  | InFile =>
      Some (mkFlags (overwrite f) (output f) value (concurrency f) (visible f) (cpuprofile f))
  | Concurrency =>
      n ← strconv_ParseInt value;
      Some (mkFlags (overwrite f) (output f) (inFile f) n (visible f) (cpuprofile f))
  | Visible =>
      b ← ParseBool value;
      Some (mkFlags (overwrite f) (output f) (inFile f) (concurrency f) b (cpuprofile f))
  | Cpuprofile =>
      Some (mkFlags (overwrite f) (output f) (inFile f) (concurrency f) (visible f) value)
  end.

(** The name of a flag argument and the value given after [=]. *)
Definition splitNameValue (name : string) : string * option string :=
  match name with
  | EmptyString => (name, None)
  | String c name' =>
      match GoStrings.Cut name' "=" with
      | (before, after, true) => (String c before, Some after)
      | _ => (name, None)
      end
  end.

(** [Parse]: the flags from the argument list, [None] when the
    arguments are refused (or ask for help) and the process exits.
    The loop of [parseOne] stops at the first argument that is no flag
    and after the terminator [--]. *)
Fixpoint ParseFrom (args : list string) (f : Flags) : option Flags :=
  match args with
  | [] => Some f
  | s :: rest =>
      match s with
      | String c0 (String c1 s2) =>
          if negb (Ascii.eqb c0 "-") then Some f
          else if Ascii.eqb c1 "-" && String.eqb s2 EmptyString then Some f
          else
            let name := if Ascii.eqb c1 "-" then s2 else String c1 s2 in
            if String.eqb name EmptyString || GoStrings.HasPrefix name "-"
               || GoStrings.HasPrefix name "="
            then None
            else
              let '(name, value) := splitNameValue name in
              match formal name with
              | None => None
              | Some v =>
                  if isBoolFlag v then
                    f' ← set v (default "true" value) f; ParseFrom rest f'
                  else
                    match value, rest with
                    | Some value, _ => f' ← set v value f; ParseFrom rest f'
                    | None, value :: rest' => f' ← set v value f; ParseFrom rest' f'
                    | None, [] => None
                    end
              end
      | _ => Some f
      end
  end.

Definition Parse (args : list string) : option Flags := ParseFrom args defaults.
End Parse.

(** The flag that an argument names when it is read as a flag. *)
Definition named (s : string) : option var :=
  match s with
  | String c0 (String c1 s2) =>
      if Ascii.eqb c0 "-"
      then formal (fst (splitNameValue (if Ascii.eqb c1 "-" then s2 else String c1 s2)))
      else None
  | _ => None
  end.

End Flag.
Import Flag.

(** ** Package [context] and [chromedp.Run] *)
Module Chromedp.

(** [time.Second], in nanoseconds as a [time.Duration]. *)
Definition Second : Z := 1000000000.

(** A context, of which only the deadline matters here. *)
Record Ctx := mkCtx { deadline : option Z }.

Definition Background : Ctx := mkCtx None.

(** [context.WithTimeout parent timeout] called at time [now]. *)
Definition WithTimeout (parent : Ctx) (now timeout : Z) : Ctx :=
  mkCtx (Some (match deadline parent with
               | Some d => Z.min d (now + timeout)
               | None => (now + timeout)%Z
               end)).

(** [chromedp.NewContext parent]: a new tab, under the deadline of its parent. *)
Definition NewContext (parent : Ctx) : Ctx := parent.

(** The tasks of one capture: the navigation to a URL, the viewport forced
    on the page and the screenshot clipped to it, with its quality. *)
Record Tasks := mkTasks { navigate : string; width : Z; height : Z; quality : Z }.

(** What the browser does with the tasks of one capture when it is left
    alone: it answers after some time with the image or an error, or it
    never answers. *)
Inductive Behaviour : Type :=
| Completes (elapsed : Z) (r : result error string)
| Hangs.

(** [chromedp.Run ctx tasks] started at time [now] on a browser that
    behaves as [browser]: the answer of the browser if it comes before the
    deadline of [ctx], the error of the context at the deadline otherwise;
    [None] when the call never returns. *)
Definition Run (ctx : Ctx) (now : Z) (tasks : Tasks) (browser : Tasks -> Behaviour)
    : option (result error string) :=
  match deadline ctx, browser tasks with
  | Some d, Completes elapsed r =>
      Some (if (now + elapsed <? d)%Z then r else Err DeadlineExceeded)
  | Some d, Hangs => Some (Err DeadlineExceeded)
  | None, Completes _ r => Some r
  | None, Hangs => None
  end.

End Chromedp.

(** ** The functions of [main.go] *)

(** [fullScreenshot urlstr quality res]: the tasks that navigate to
    [urlstr], force a viewport of 1920 by 1080 and capture it. *)
Definition fullScreenshot (urlstr : string) (quality : Z) : Chromedp.Tasks :=
  Chromedp.mkTasks urlstr 1920 1080 quality.

Section Program.
Context {lib : Library}.

Definition writeDataFile (inData : list string) (path : string) (append : bool)
    (w : World) : option error * World :=
  let '(file, w) := Os.OpenFile path false false w in
  let '(file, w) := if append then Os.OpenFile path true false w else (file, w) in
  match file with
  | Err err => (Some err, w)
  | Ok file =>
      let datawriter :=
        fold_left (fun buf data => buf +:+ (data +:+ LF)) inData EmptyString in
      (None, snd (Os.Write file datawriter w))
  end.

Definition handleError (err : error) (errorContextInfo : string) (w : World) : World :=
  let w := printErr w ("run error: " +:+ errorText err +:+ " ------ "
                       +:+ errorContextInfo +:+ LF) in
  let errorLog := "run error: " +:+ errorText err +:+ " ------ "
                  +:+ errorContextInfo +:+ LF in
  let errorLogdata := [errorLog] in
  snd (writeDataFile errorLogdata "errorLog.txt" true w).

Definition createOutputDir (output : string) (w : World) : option error * World :=
  let dir := filepath_Dir (output +:+ "/") in
  Os.MkdirAll dir w.

(** How a job ended. *)
Inductive Outcome : Type :=
| Saved (path : string)
| Failed (err : error).

(** The body of the worker's loop after [chromedp.Run] has returned [r]
    for [requestURL]. *)
Definition finishJob (cfg : Flags) (requestURL : string) (r : result error string)
    (w : World) : Outcome * World :=
  match r with
  | Err err => (Failed err, handleError err requestURL w)
  | Ok buf =>
      match makeFilepath (output cfg) requestURL with
      | Err err => (Failed (UrlError err), handleError (UrlError err) requestURL w)
      | Ok path =>
          match Os.WriteFile (path +:+ ".png") buf w with
          | (Some err, w') => (Failed err, handleError err requestURL w')
          | (None, w') => (Saved (path +:+ ".png"), w')
          end
      end
  end.

(** *** [main] up to the start of the workers *)

Inductive Startup : Type :=
| Exit (w : World)                 (** [flag.Parse] refuses the arguments *)
| Fatal (err : error) (w : World)  (** [log.Fatal] *)
| Return (w : World)               (** [main] returns *)
| Ready (cfg : Flags) (urls : list string) (w : World).

(** Lines 46 to 93: the flags, the profile, the browser, the output
    directory and the input.  The tokens of the scanner are taken at
    once; they are the jobs. *)
Definition startup (args : list string) (w : World) : Startup :=
  match Flag.Parse args with
  | None => Exit w
  | Some cfg =>
      let '(err, w) :=
        if negb (String.eqb (cpuprofile cfg) EmptyString)
        then match Os.Create (cpuprofile cfg) w with
             | (Err err, w) => (Some err, w)
             | (Ok _, w) => (None, w)
             end
        else (None, w) in
      match err with
      | Some err => Fatal err w
      | None =>
          match browserStart w with
          | Some err =>
              Return (printErr w ("error starting browser: " +:+ errorText err +:+ LF))
          | None =>
              let '(_, w) := createOutputDir (output cfg) w in
              if negb (String.eqb (inFile cfg) EmptyString)
              then match Os.Open (inFile cfg) w with
                   | Err err => Fatal err w
                   | Ok file => Ready cfg (Bufio.scanLines file) w
                   end
              else Ready cfg (Bufio.scanLines (stdin w)) w
          end
      end
  end.

(** *** The pool of workers

    Lines 95 to 137 as a transition system.  The main goroutine scans a
    token, prints it and offers it on the unbuffered channel [jobs]; a
    worker that waits on the channel takes it and starts the capture; when
    [chromedp.Run] returns, the worker finishes the job and waits again.
    Once the channel is closed the waiting workers leave, and [main]
    returns from [wg.Wait] when all have left. *)

Inductive MainPC : Type :=
| Scanning (rest : list string)            (** at [sc.Scan] *)
| Sending (u : string) (rest : list string) (** at [jobs <- sc.Text()] *)
| Waiting                                  (** at [wg.Wait], [jobs] closed *)
| Returned.

Inductive Worker : Type :=
| Receiving                                (** at [range jobs] *)
| Running (requestURL : string) (ctx : Chromedp.Ctx) (started : Z)
                                           (** in [chromedp.Run] *)
| Exited.                                  (** after [wg.Done] *)

Record Pool := mkPool {
  pc : MainPC;
  workers : list Worker;
  world : World;
  attempts : list (nat * string);      (** the captures started: worker, URL *)
  resolved : list (string * Outcome);  (** the jobs finished *)
}.

(** The context of the browser, [pctx]: it has no deadline. *)
Definition pctx : Chromedp.Ctx := Chromedp.NewContext Chromedp.Background.

(** The context a worker creates for a job at time [now]. *)
Definition jobContext (now : Z) : Chromedp.Ctx :=
  Chromedp.NewContext (Chromedp.WithTimeout pctx now (Chromedp.Second * 20)).

Definition initPool (cfg : Flags) (urls : list string) (w : World) : Pool :=
  mkPool (Scanning urls) (replicate (Z.to_nat (concurrency cfg)) Receiving) w [] [].

Inductive step (cfg : Flags) : Pool -> Pool -> Prop :=
| step_scan u rest ws w att res :
    step cfg (mkPool (Scanning (u :: rest)) ws w att res)
             (mkPool (Sending u rest) ws (printOut w (u +:+ LF)) att res)
| step_close ws w att res :
    step cfg (mkPool (Scanning []) ws w att res) (mkPool Waiting ws w att res)
| step_handoff i now u rest ws w att res :
    ws !! i = Some Receiving ->
    step cfg (mkPool (Sending u rest) ws w att res)
             (mkPool (Scanning rest) (<[i := Running u (jobContext now) now]> ws) w
                     (att ++ [(i, u)]) res)
| step_finish i u ctx started browser r p ws w att res :
    ws !! i = Some (Running u ctx started) ->
    Chromedp.Run ctx started (fullScreenshot u 90) browser = Some r ->
    step cfg (mkPool p ws w att res)
             (mkPool p (<[i := Receiving]> ws) (snd (finishJob cfg u r w)) att
                     (res ++ [(u, fst (finishJob cfg u r w))]))
| step_exit i ws w att res :
    ws !! i = Some Receiving ->
    step cfg (mkPool Waiting ws w att res)
             (mkPool Waiting (<[i := Exited]> ws) w att res)
| step_return ws w att res :
    Forall (eq Exited) ws ->
    step cfg (mkPool Waiting ws w att res) (mkPool Returned ws w att res).

(** Runs of [n] steps. *)
Inductive steps (cfg : Flags) : nat -> Pool -> Pool -> Prop :=
| steps_O s : steps cfg 0 s s
| steps_S n s1 s2 s3 : steps cfg n s1 s2 -> step cfg s2 s3 -> steps cfg (S n) s1 s3.

(** The jobs [main] still has to hand over. *)
Definition pending (p : MainPC) : list string :=
  match p with
  | Scanning rest => rest
  | Sending u rest => u :: rest
  | Waiting | Returned => []
  end.

(** The job a worker is running. *)
Definition jobOf (wk : Worker) : list string :=
  match wk with
  | Running u _ _ => [u]
  | _ => []
  end.

Definition running (ws : list Worker) : list string := ws ≫= jobOf.

End Program.

(** ** A library for the examples

    [plainLibrary] stands for the three functions of [Library] on the plain
    inputs of the examples below: it quotes a string without escapes,
    reads a decimal literal and removes the trailing slashes of a path. *)

Fixpoint decimalFrom (acc : Z) (s : string) : option Z :=
  match s with
  | EmptyString => Some acc
  | String c s' =>
      if isDigit c
      then decimalFrom (10 * acc + Z.of_N (byteVal c - byteVal "0")) s'
      else None
  end.

Definition decimal (s : string) : option Z :=
  match s with
  | EmptyString => None
  | String "-" (String c s') => Z.opp <$> decimalFrom 0 (String c s')
  | _ => decimalFrom 0 s
  end.

Fixpoint plainDir (path : string) : string :=
  match path with
  | EmptyString => EmptyString
  | String c path' =>
      match plainDir path' with
      | EmptyString => if Ascii.eqb c "/" then EmptyString else String c EmptyString
      | dir => String c dir
      end
  end.

Definition plainLibrary : Library := {|
  strconv_Quote s := String dquote (s +:+ String dquote EmptyString);
  strconv_ParseInt := decimal;
  filepath_Dir := plainDir;
|}.

(** The empty world: no file, no directory, nothing refused, a browser that
    starts. *)
Definition emptyWorld : World :=
  mkWorld ∅ ∅ ∅ EmptyString EmptyString EmptyString None.

(** [allIn class s]: every byte of [s] is in [class]. *)
Fixpoint allIn (class : ascii -> bool) (s : string) : bool :=
  match s with
  | EmptyString => true
  | String c s' => class c && allIn class s'
  end.

(** Number of line feeds of [s], the number of lines of a text file. *)
Definition countLines (s : string) : nat := GoStrings.CountByte s (ascii_of_N 10).

(** [TrimSuffix] of one slash, by recursion on the string. *)
Fixpoint trimSlash (s : string) : string :=
  match s with
  | EmptyString => EmptyString
  | String c EmptyString => if Ascii.eqb c "/" then EmptyString else s
  | String c s' => String c (trimSlash s')
  end.

(** The text written so far when the matcher of ["/+"] is in state [st]
    ends with a slash exactly when [st] holds. *)
Definition pendingSlash (st : bool) : string := if st then "/" else EmptyString.

(** A URL with a tabulation in its host. *)
Definition urlWithTab : string := "http://exa" +:+ String (ascii_of_N 9) "mple.com/".

(** A world for the examples: a file [input] with one URL, another URL on
    the standard input. *)
Definition inputWorld : World :=
  mkWorld {["input" := "http://file.example/" +:+ LF]} ∅ ∅
    ("http://stdin.example/" +:+ LF) EmptyString EmptyString None.

(** A world in which the output directory cannot be created: the system
    refuses [out] and the file below it. *)
Definition readOnlyWorld : World :=
  mkWorld {["input" := "http://example.com/" +:+ LF]} ∅
    {["out"; "out/example.com-index.png"]}
    EmptyString EmptyString EmptyString None.

(** The flags with another value of [overwrite]. *)
Definition withOverwrite (b : bool) (cfg : Flags) : Flags :=
  mkFlags b (output cfg) (inFile cfg) (concurrency cfg) (visible cfg) (cpuprofile cfg).

(** A measure of the work left to the pool: every step lowers it. *)
Definition pcWeight (p : MainPC) : nat :=
  match p with
  | Scanning rest => 3 * length rest + 2
  | Sending _ rest => 3 * length rest + 4
  | Waiting => 1
  | Returned => 0
  end.

Definition workerWeight (wk : Worker) : nat :=
  match wk with
  | Running _ _ _ => 2
  | Receiving => 1
  | Exited => 0
  end.

Definition workLeft (s : Pool) : nat :=
  pcWeight (pc s) + sum_list_with workerWeight (workers s).

(** A capture runs under the context made for it when it started. *)
Definition underDeadline (wk : Worker) : Prop :=
  match wk with
  | Running _ ctx started => ctx = jobContext started
  | _ => True
  end.

(** The browser does not answer within [timeout]. *)
Definition overruns (b : Chromedp.Behaviour) (timeout : Z) : Prop :=
  match b with
  | Chromedp.Completes elapsed _ => (timeout < elapsed)%Z
  | Chromedp.Hangs => True
  end.

(** What holds of every state of a pool of [n] workers started on [urls]:
    the captures started are the jobs handed over so far, in the order of
    the input; they are resolved or still running; no worker leaves before
    the channel is closed and none is left when [main] returns. *)
Record poolInv (urls : list string) (n : nat) (s : Pool) : Prop := {
  inv_attempts : (attempts s).*2 ++ pending (pc s) = urls;
  inv_resolved : (resolved s).*1 ++ running (workers s) ≡ₚ (attempts s).*2;
  inv_workers : length (workers s) = n;
  inv_indices : Forall (fun a => a.1 < n) (attempts s);
  inv_open : pc s = Waiting \/ pc s = Returned \/ Forall (fun wk => wk <> Exited) (workers s);
  inv_returned : pc s = Returned -> Forall (eq Exited) (workers s);
  inv_deadline : Forall underDeadline (workers s);
}.

(** The end of a run in [readOnlyWorld]: the only job was captured by the
    first worker and its image could not be written. *)
Definition readOnlyFinal : Pool :=
  let u := "http://example.com/" in
  let done :=
    finishJob (lib := plainLibrary) Flag.defaults u (Ok "PNG")
      (printOut readOnlyWorld (u +:+ LF)) in
  mkPool Returned [Exited; Exited] done.2 [(0, u)] [(u, done.1)].

(** A pool in which the first of two workers runs a capture started at
    time 5. *)
Definition capturingPool : Pool :=
  mkPool (Scanning []) [Running "http://example.com/" (jobContext 5) 5; Receiving]
    (printOut emptyWorld ("http://example.com/" +:+ LF)) [(0, "http://example.com/")] [].

(** [noDoubleFrom prev c s]: the byte [c] never follows itself in [s], nor
    starts [s] when [prev] tells that the byte before [s] was [c]. *)
Fixpoint noDoubleFrom (prev : bool) (c : ascii) (s : string) : bool :=
  match s with
  | EmptyString => true
  | String d s' =>
      if Ascii.eqb d c then negb prev && noDoubleFrom true c s'
      else noDoubleFrom false c s'
  end.

Definition noDouble (c : ascii) (s : string) : bool := noDoubleFrom false c s.

(** [endsWith c s]: the last byte of [s] is [c]. *)
Fixpoint endsWith (c : ascii) (s : string) : bool :=
  match s with
  | EmptyString => false
  | String d EmptyString => Ascii.eqb d c
  | String _ s' => endsWith c s'
  end.

(** A path in the form that [makeFilepath] produces: bytes of the class
    [[a-zA-Z0-9_.%/-]] only, no dash after a dash, no slash after a slash,
    no slash at the end. *)
Definition cleanPath (s : string) : bool :=
  allIn savePathClass s && noDouble "-" s && noDouble "/" s && negb (endsWith "/" s).

(** The text of a list of lines, each followed by a line feed. *)
Fixpoint joinLines (lines : list string) : string :=
  match lines with
  | [] => EmptyString
  | line :: lines' => line +:+ LF +:+ joinLines lines'
  end.

(** The line that [handleError] prints for an error and a URL. *)
Definition failureLine {lib : Library} (err : error) (url : string) : string :=
  "run error: " +:+ errorText err +:+ " ------ " +:+ url +:+ LF.

(** The lines of the failed jobs among the resolved ones, in the order in
    which the jobs were resolved. *)
Fixpoint failureReport {lib : Library} (res : list (string * Outcome)) : string :=
  match res with
  | [] => EmptyString
  | (url, Failed err) :: res' => failureLine err url +:+ failureReport res'
  | (_, Saved _) :: res' => failureReport res'
  end.

(** The jobs that [main] has not yet echoed. *)
Definition unscanned (p : MainPC) : list string :=
  match p with
  | Scanning rest => rest
  | Sending _ rest => rest
  | Waiting | Returned => []
  end.

(** The flags with another pool size. *)
Definition withConcurrency (n : Z) (cfg : Flags) : Flags :=
  mkFlags (overwrite cfg) (output cfg) (inFile cfg) n (visible cfg) (cpuprofile cfg).

(** A pool without workers in which [main] offers its first job. *)
Definition blockedPool : Pool :=
  mkPool (Sending "http://example.com/" []) []
    (printOut emptyWorld ("http://example.com/" +:+ LF)) [] [].

(** [without c s]: the byte [c] does not occur in [s]. *)
Definition without (c : ascii) (s : string) : bool :=
  allIn (fun d => negb (Ascii.eqb d c)) s.

(** ** [makeFilepath] as a call

    A call of a Go function may read and change the world around the
    process; [IO A] is the type of a call that returns an [A].  The
    functions of [net/url], [regexp], [fmt] and [strings] that
    [makeFilepath] calls work on their arguments alone ([pureCall]).
    [makeFilepathIO] follows the body of the function statement by
    statement. *)

Definition IO (A : Type) : Type := World -> A * World.

Definition pureCall {A : Type} (a : A) : IO A := fun w => (a, w).

Definition andThen {A B : Type} (m : IO A) (k : A -> IO B) : IO B :=
  fun w => let '(a, w') := m w in k a w'.

Notation "'call' x <- m ; k" := (andThen m (fun x => k))
  (at level 10, x name, m at level 100, k at level 200).

(** The patterns that [makeFilepath] compiles. *)
Inductive Pattern : Type :=
| NotIn (class : ascii -> bool)  (** [[^class]] *)
| Plus (c : ascii).              (** [c+] *)

Definition MustCompile (pattern : Pattern) : IO Pattern := pureCall pattern.

Definition ReplaceAllString (re : Pattern) (src repl : string) : IO string :=
  pureCall (match re with
            | NotIn class => Regexp.ReplaceAllOutside class src repl
            | Plus c => Regexp.ReplaceAllRuns c src repl
            end).

Definition makeFilepathIO (prefix requestURL : string) : IO (result Url.Error string) :=
  call parsed <- pureCall (Url.Parse requestURL) ;
  match parsed with
  | Err err => pureCall (Err err)
  | Ok u =>
      call requestPath <- pureCall (Url.EscapedPath u) ;
      let requestPath := if String.eqb requestPath "/" then "/index" else requestPath in
      call re <- MustCompile (NotIn pathClass) ;
      call requestPath <- ReplaceAllString re requestPath "-" ;
      call hostname <- pureCall (Url.Hostname u) ;
      call savePath <- pureCall (prefix +:+ "/" +:+ hostname +:+ requestPath) ;
      call re <- MustCompile (NotIn savePathClass) ;
      call savePath <- ReplaceAllString re savePath "-" ;
      call re <- MustCompile (Plus "-") ;
      call savePath <- ReplaceAllString re savePath "-" ;
      call re <- MustCompile (Plus "/") ;
      call savePath <- ReplaceAllString re savePath "/" ;
      call savePath <- pureCall (GoStrings.TrimSuffix savePath "/") ;
      pureCall (Ok savePath)
  end.

(** Two calls of [makeFilepath] with a call of anything else between them. *)
Definition twoCalls (prefix requestURL : string) (between : IO unit)
    : IO (result Url.Error string * result Url.Error string) :=
  call first <- makeFilepathIO prefix requestURL ;
  call _ <- between ;
  call second <- makeFilepathIO prefix requestURL ;
  pureCall (first, second).

(** * Properties *)

(** ** Facts on strings *)

Lemma append_assoc (a b c : string) : (a +:+ b) +:+ c = a +:+ (b +:+ c).
Proof. induction a as [|x a IH]; simpl; [reflexivity | now rewrite IH]. Qed.

Lemma append_empty_r (a : string) : a +:+ EmptyString = a.
Proof. induction a as [|x a IH]; simpl; [reflexivity | now rewrite IH]. Qed.

Lemma prefix_allIn (class : ascii -> bool) (p s : string) :
  String.prefix p s = true -> allIn class s = true -> allIn class p = true.
Proof.
  revert s; induction p as [|x p IH]; intros s Hp Hs; [reflexivity|].
  destruct s as [|y s]; simpl in Hp; [discriminate|].
  destruct (ascii_dec x y) as [->|]; [|discriminate].
  simpl in *. apply andb_true_iff in Hs as [Hy Hs].
  rewrite Hy. simpl. eauto.
Qed.

Lemma allIn_append (class : ascii -> bool) (a b : string) :
  allIn class (a +:+ b) = allIn class a && allIn class b.
Proof.
  induction a as [|x a IH]; simpl; [reflexivity|].
  now rewrite IH, andb_assoc.
Qed.

Lemma HasSuffix_cons (c d : ascii) (s : string) :
  GoStrings.HasSuffix (String c (String d s)) "/" = GoStrings.HasSuffix (String d s) "/".
Proof.
  unfold GoStrings.HasSuffix, GoStrings.sliceFrom. simpl.
  rewrite !Nat.sub_0_r. reflexivity.
Qed.

Lemma TrimSuffix_slash (s : string) : GoStrings.TrimSuffix s "/" = trimSlash s.
Proof.
  induction s as [|c s IH]; [reflexivity|].
  destruct s as [|d s].
  - unfold GoStrings.TrimSuffix, GoStrings.HasSuffix, GoStrings.sliceFrom, GoStrings.slice.
    simpl. destruct (Ascii.eqb_spec c "/") as [->|Hc]; [reflexivity|].
    destruct (String.eqb_spec (String c EmptyString) "/") as [E|_]; [congruence | reflexivity].
  - change (trimSlash (String c (String d s))) with (String c (trimSlash (String d s))).
    rewrite <- IH. unfold GoStrings.TrimSuffix.
    rewrite HasSuffix_cons.
    destruct (GoStrings.HasSuffix (String d s) "/"); [|reflexivity].
    unfold GoStrings.slice. simpl. rewrite !Nat.sub_0_r. reflexivity.
Qed.

Lemma trimSlash_allIn (class : ascii -> bool) (s : string) :
  allIn class s = true -> allIn class (trimSlash s) = true.
Proof.
  induction s as [|c s IH]; [reflexivity|].
  destruct s as [|d s]; intros H.
  - simpl. destruct (Ascii.eqb c "/"); [reflexivity | assumption].
  - change (trimSlash (String c (String d s))) with (String c (trimSlash (String d s))).
    simpl in *. apply andb_true_iff in H as [Hc H]. rewrite Hc. simpl. auto.
Qed.

(** ** Facts on the replacements *)

Lemma first_lo (c : ascii) (sz : nat) (lo hi : N) :
  Utf8.first c = Some (sz, (lo, hi)) -> (128 <= lo)%N.
Proof.
  unfold Utf8.first.
  repeat match goal with
         | |- context [if ?b then _ else _] => destruct b
         end; intros H; inversion H; subst; lia.
Qed.

Lemma inBytes_ascii (lo hi : N) (d : ascii) :
  (128 <= lo)%N -> (byteVal d <? 128)%N = true -> Utf8.inBytes lo hi d = false.
Proof.
  intros Hlo Hd. apply N.ltb_lt in Hd. unfold Utf8.inBytes.
  apply andb_false_iff. left. apply N.leb_gt. lia.
Qed.

(** An ASCII byte after [a] belongs to no rune that starts in [a]. *)
Lemma runeWidth_append_ascii (c d : ascii) (a b : string) :
  (byteVal d <? 128)%N = true ->
  Utf8.runeWidth (String c (a +:+ String d b)) = Utf8.runeWidth (String c a).
Proof.
  intros Hd. unfold Utf8.runeWidth.
  destruct (Utf8.first c) as [[sz [lo hi]]|] eqn:Hf; [|reflexivity].
  apply first_lo in Hf.
  destruct a as [|s1 a]; simpl.
  { now rewrite inBytes_ascii. }
  destruct (Utf8.inBytes lo hi s1); simpl; [|reflexivity].
  destruct (sz <=? 2)%nat; [reflexivity|].
  destruct a as [|s2 a]; simpl.
  { unfold Utf8.isCont. now rewrite inBytes_ascii. }
  destruct (Utf8.isCont s2); simpl; [|reflexivity].
  destruct (sz <=? 3)%nat; [reflexivity|].
  destruct a as [|s3 a]; simpl; [|reflexivity].
  unfold Utf8.isCont. now rewrite inBytes_ascii.
Qed.

(** A rune does not reach beyond the end of the string. *)
Lemma runeWidth_le (c : ascii) (a : string) :
  Utf8.runeWidth (String c a) - 1 <= String.length a.
Proof.
  unfold Utf8.runeWidth.
  destruct (Utf8.first c) as [[sz [lo hi]]|]; [|simpl; lia].
  destruct a as [|s1 a]; simpl; [lia|].
  destruct (Utf8.inBytes lo hi s1); simpl; [|lia].
  destruct (sz <=? 2)%nat; [simpl; lia|].
  destruct a as [|s2 a]; simpl; [lia|].
  destruct (Utf8.isCont s2); simpl; [|lia].
  destruct (sz <=? 3)%nat; [simpl; lia|].
  destruct a as [|s3 a]; simpl; [lia|].
  destruct (Utf8.isCont s3); simpl; lia.
Qed.

(** The replacement of the runes outside a class works on both sides of an
    ASCII byte independently. *)
Lemma replaceOutside_append (class : ascii -> bool) (repl : string) (d : ascii)
    (a b : string) (k : nat) :
  (byteVal d <? 128)%N = true ->
  k <= String.length a ->
  Regexp.replaceOutside class repl k (a +:+ String d b)
  = Regexp.replaceOutside class repl k a
    +:+ Regexp.replaceOutside class repl 0 (String d b).
Proof.
  intros Hd. revert k.
  induction a as [|c a IH]; intros k Hk.
  - simpl in Hk. assert (k = 0) as -> by lia. reflexivity.
  - destruct k as [|k].
    + change (String c a +:+ String d b) with (String c (a +:+ String d b)).
      cbn [Regexp.replaceOutside].
      destruct ((byteVal c <? 128)%N && class c).
      * rewrite IH by lia. reflexivity.
      * rewrite runeWidth_append_ascii by assumption.
        rewrite IH by apply runeWidth_le.
        now rewrite append_assoc.
    + simpl in Hk. cbn [Regexp.replaceOutside String.append].
      apply IH. lia.
Qed.

Lemma replaceOutside_allIn (class class' : ascii -> bool) (repl s : string) (k : nat) :
  (forall c, class c = true -> class' c = true) ->
  allIn class' repl = true ->
  allIn class' (Regexp.replaceOutside class repl k s) = true.
Proof.
  intros Hsub Hrepl. revert k.
  induction s as [|c s IH]; intros k; [reflexivity|].
  destruct k as [|k]; cbn [Regexp.replaceOutside]; [|apply IH].
  destruct ((byteVal c <? 128)%N && class c) eqn:Hc.
  - apply andb_true_iff in Hc as [_ Hc]. simpl. now rewrite (Hsub _ Hc), IH.
  - now rewrite allIn_append, Hrepl, IH.
Qed.

Lemma replaceRuns_allIn (class : ascii -> bool) (c : ascii) (repl s : string) (st : bool) :
  allIn class repl = true -> allIn class s = true ->
  allIn class (Regexp.replaceRuns c repl st s) = true.
Proof.
  intros Hrepl. revert st.
  induction s as [|d s IH]; intros st Hs; [reflexivity|].
  simpl in Hs. apply andb_true_iff in Hs as [Hd Hs].
  cbn [Regexp.replaceRuns].
  destruct (Ascii.eqb d c); [destruct st|].
  - now apply IH.
  - rewrite allIn_append, Hrepl. now apply IH.
  - simpl. rewrite Hd. now apply IH.
Qed.

(** A byte other than [c] separates the runs of [c]. *)
Lemma replaceRuns_append_other (c d : ascii) (repl a b : string) (st : bool) :
  Ascii.eqb d c = false ->
  Regexp.replaceRuns c repl st (a +:+ String d b)
  = Regexp.replaceRuns c repl st a +:+ String d (Regexp.replaceRuns c repl false b).
Proof.
  intros Hd. revert st.
  induction a as [|x a IH]; intros st.
  - cbn [String.append Regexp.replaceRuns]. now rewrite Hd.
  - cbn [String.append Regexp.replaceRuns].
    destruct (Ascii.eqb x c); [destruct st|]; rewrite IH;
      [reflexivity | now rewrite append_assoc | reflexivity].
Qed.

Lemma trimSlash_cons (c : ascii) (s : string) :
  s <> EmptyString -> trimSlash (String c s) = String c (trimSlash s).
Proof. destruct s; [congruence | reflexivity]. Qed.

Lemma replaceSlashRuns_append (a b : string) (st : bool) :
  pendingSlash st +:+ Regexp.replaceRuns "/" "/" st (a +:+ String "/" b)
  = trimSlash (pendingSlash st +:+ Regexp.replaceRuns "/" "/" st a)
    +:+ String "/" (Regexp.replaceRuns "/" "/" true b).
Proof.
  revert st. induction a as [|x a IH]; intros st.
  - destruct st; reflexivity.
  - cbn [String.append Regexp.replaceRuns].
    destruct (Ascii.eqb_spec x "/") as [->|Hx].
    + destruct st; [apply (IH true)|]. apply (IH true).
    + specialize (IH false). cbn [pendingSlash String.append] in IH.
      assert (Hne : forall s, String x s <> EmptyString) by (intros; congruence).
      destruct st; cbn [pendingSlash String.append].
      * rewrite trimSlash_cons by apply Hne.
        destruct (Regexp.replaceRuns "/" "/" false a) eqn:Ha.
        -- cbn [trimSlash]. destruct (Ascii.eqb_spec x "/"); [congruence|].
           cbn [String.append]. rewrite IH. reflexivity.
        -- rewrite trimSlash_cons by congruence.
           cbn [String.append]. rewrite IH. reflexivity.
      * destruct (Regexp.replaceRuns "/" "/" false a) eqn:Ha.
        -- cbn [trimSlash]. destruct (Ascii.eqb_spec x "/"); [congruence|].
           cbn [String.append]. rewrite IH. reflexivity.
        -- rewrite trimSlash_cons by congruence.
           cbn [String.append]. rewrite IH. reflexivity.
Qed.

Lemma prefix_trimSlash_append (t z : string) :
  String.prefix t (trimSlash (t +:+ String "/" z)) = true.
Proof.
  induction t as [|c t IH]; [now destruct (trimSlash _)|].
  cbn [String.append]. rewrite trimSlash_cons by (destruct t; discriminate).
  simpl. destruct (ascii_dec c c); [assumption | congruence].
Qed.

(** Cleaning a path that continues after a slash starts with the cleaned
    path before the slash. *)
Lemma cleanSavePath_append (a b : string) :
  String.prefix (cleanSavePath a) (cleanSavePath (a +:+ String "/" b)) = true.
Proof.
  unfold cleanSavePath, Regexp.ReplaceAllOutside, Regexp.ReplaceAllRuns.
  rewrite !TrimSuffix_slash.
  rewrite replaceOutside_append by (reflexivity || lia).
  change (Regexp.replaceOutside savePathClass "-" 0 (String "/" b))
    with (String "/" (Regexp.replaceOutside savePathClass "-" 0 b)).
  rewrite replaceRuns_append_other by reflexivity.
  pose proof (replaceSlashRuns_append
                (Regexp.replaceRuns "-" "-" false (Regexp.replaceOutside savePathClass "-" 0 a))
                (Regexp.replaceRuns "-" "-" false (Regexp.replaceOutside savePathClass "-" 0 b))
                false) as H.
  cbn [pendingSlash String.append] in H. rewrite H.
  apply prefix_trimSlash_append.
Qed.

Lemma cleanSavePath_allIn (s : string) : allIn savePathClass (cleanSavePath s) = true.
Proof.
  unfold cleanSavePath, Regexp.ReplaceAllOutside, Regexp.ReplaceAllRuns.
  rewrite TrimSuffix_slash. apply trimSlash_allIn.
  apply replaceRuns_allIn; [reflexivity|].
  apply replaceRuns_allIn; [reflexivity|].
  apply replaceOutside_allIn; [auto | reflexivity].
Qed.

(** ** The path sanitizer *)

(** The first replacement of [makeFilepath] turns the slashes of the path
    into dashes: the class of its pattern has no slash. *)
Example pathClass_slash : pathClass "/" = false.
Proof. reflexivity. Qed.

Example makeFilepath_collapses :
  makeFilepath "out" "http://example.com/a//b?x=1" = Ok "out/example.com-a-b"
  /\ makeFilepath "out" "http://example.com/a!!!b" = Ok "out/example.com-a-b".
Proof. split; vm_compute; reflexivity. Qed.

(** C1, as stated: for ["http://example.com/"] and the directory ["out"]
    the path would be ["out/example.com/index"].  It is not. *)
Lemma makeFilepath_root_not_slash_index :
  makeFilepath "out" "http://example.com/" <> Ok "out/example.com/index".
Proof. vm_compute. discriminate. Qed.

(** C1, amended: for the URL ["http://example.com/"] and the output directory
    ["out"], [makeFilepath] returns ["out/example.com-index"]: the path ["/"]
    becomes ["/index"], whose slash the first replacement turns into a dash. *)
Theorem makeFilepath_root_index :
  makeFilepath "out" "http://example.com/" = Ok "out/example.com-index".
Proof. vm_compute. reflexivity. Qed.

(** [parse] refuses a URL with an ASCII control character before its
    fragment. *)
Lemma Parse_control_character (requestURL : string) :
  Url.stringContainsCTLByte (fst (fst (GoStrings.Cut requestURL "#"))) = true ->
  Url.Parse requestURL
  = Err (Url.mkError "parse" (fst (fst (GoStrings.Cut requestURL "#")))
           Url.InvalidControlCharacter).
Proof.
  intros H. unfold Url.Parse.
  destruct (GoStrings.Cut requestURL "#") as [[u frag] found]. simpl in H.
  unfold Url.parse. now rewrite H.
Qed.

(** C7, as stated: the empty string would be refused.  [makeFilepath]
    accepts it and returns the output directory. *)
Lemma makeFilepath_empty_url_accepted :
  makeFilepath "out" EmptyString = Ok "out"
  /\ ~ (exists e, makeFilepath "out" EmptyString = Err e).
Proof.
  split; [vm_compute; reflexivity|].
  intros [e H]. vm_compute in H. discriminate.
Qed.

(** A URL with a tabulation in its host is refused. *)
Example makeFilepath_tab_refused :
  makeFilepath "out" urlWithTab
  = Err (Url.mkError "parse" urlWithTab Url.InvalidControlCharacter).
Proof. vm_compute. reflexivity. Qed.

(** An error of [makeFilepath] is an error of the parser. *)
Lemma makeFilepath_error (prefix requestURL : string) (e : Url.Error) :
  makeFilepath prefix requestURL = Err e <-> Url.Parse requestURL = Err e.
Proof.
  unfold makeFilepath. destruct (Url.Parse requestURL); simpl; split; congruence.
Qed.

(** C10: when the output directory has a byte outside the class
    [[A-Za-z0-9_.%/-]], the path that [makeFilepath] returns does not start
    with the output directory as given; it starts with the directory as the
    passes over the composed path rewrite it. *)
Theorem makeFilepath_rewrites_prefix (prefix requestURL path : string) :
  allIn savePathClass prefix = false ->
  makeFilepath prefix requestURL = Ok path ->
  GoStrings.HasPrefix path prefix = false
  /\ GoStrings.HasPrefix path (cleanSavePath prefix) = true.
Proof.
  unfold makeFilepath, GoStrings.HasPrefix.
  destruct (Url.Parse requestURL) as [u|e]; simpl; [|discriminate].
  intros Hprefix [= <-]. split.
  - destruct (String.prefix prefix _) eqn:Hp; [|reflexivity].
    apply (prefix_allIn savePathClass) in Hp; [congruence|].
    apply cleanSavePath_allIn.
  - apply cleanSavePath_append.
Qed.

Lemma makeFilepath_rewrites_prefix_witness :
  GoStrings.HasPrefix "my-out/example.com-index" "my out" = false
  /\ GoStrings.HasPrefix "my-out/example.com-index" (cleanSavePath "my out") = true.
Proof.
  apply (makeFilepath_rewrites_prefix "my out" "http://example.com/");
    vm_compute; reflexivity.
Defined.

(** ** The error recorder *)

Section Recorder.
Context {lib : Library}.

(** When the log can be opened, [handleError] appends the line and a
    second line feed to it and leaves the other files alone. *)
Lemma handleError_log (err : error) (url : string) (w : World) :
  Os.isRefused w "errorLog.txt" = false ->
  Os.isDir w "errorLog.txt" = false ->
  files (handleError err url w)
  = <["errorLog.txt" :=
        Os.content w "errorLog.txt"
        +:+ ("run error: " +:+ errorText err +:+ " ------ " +:+ url +:+ LF) +:+ LF]>
      (files w).
Proof.
  intros Href Hdir.
  unfold handleError, writeDataFile, Os.OpenFile.
  unfold Os.isRefused, Os.isDir, printErr, setFiles in *. simpl refused. simpl dirs.
  rewrite Href, Hdir. simpl refused. simpl dirs. rewrite Href, Hdir.
  unfold Os.Write, Os.content, setFiles. simpl.
  now rewrite !lookup_insert_eq, !insert_insert_eq.
Qed.

(** [handleError] prints the line, with one line feed, on the standard
    error. *)
Lemma handleError_stderr (err : error) (url : string) (w : World) :
  stderr (handleError err url w)
  = stderr w +:+ ("run error: " +:+ errorText err +:+ " ------ " +:+ url +:+ LF).
Proof.
  unfold handleError, writeDataFile, Os.OpenFile, Os.Write.
  repeat match goal with
         | |- context [if ?b then _ else _] => destruct b; cbn
         end; reflexivity.
Qed.

End Recorder.

(** C2, at a failing input: one call of [handleError] on an empty log, for
    the error ["boom"] and the URL ["http://a/"].  The standard error
    receives one line; the log receives the line followed by an empty line,
    two line feeds for one record. *)
Theorem handleError_adds_empty_line :
  let w := handleError (lib := plainLibrary) (OtherError "boom") "http://a/" emptyWorld in
  stderr w = "run error: boom ------ http://a/" +:+ LF
  /\ files w !! "errorLog.txt" = Some ("run error: boom ------ http://a/" +:+ LF +:+ LF)
  /\ countLines (Os.content w "errorLog.txt") = 2.
Proof. vm_compute. repeat split; reflexivity. Qed.

(** ** The start of the program *)

Section Start.
Context {lib : Library}.

Lemma OpenFile_stdin (path : string) (a t : bool) (w : World) :
  stdin (snd (Os.OpenFile path a t w)) = stdin w.
Proof.
  unfold Os.OpenFile.
  destruct (Os.isRefused w path); [reflexivity|].
  destruct (Os.isDir w path); reflexivity.
Qed.

Lemma createOutputDir_keeps (output : string) (w : World) :
  stdin (snd (createOutputDir output w)) = stdin w
  /\ files (snd (createOutputDir output w)) = files w
  /\ refused (snd (createOutputDir output w)) = refused w.
Proof.
  unfold createOutputDir, Os.MkdirAll.
  destruct (Os.isRefused w _); [easy|].
  destruct (Os.isFile w _); easy.
Qed.

(** A flag other than the input flag leaves the input file alone. *)
Lemma set_keeps_inFile (v : Flag.var) (value : string) (f f' : Flags) :
  Flag.set v value f = Some f' -> v <> Flag.InFile -> inFile f' = inFile f.
Proof.
  intros H Hv. destruct v; simpl in H; try congruence;
    try (destruct (Flag.ParseBool value); simpl in H);
    try (destruct (strconv_ParseInt value); simpl in H);
    try discriminate; now injection H as <-.
Qed.

(** When no argument names the input flag, parsing leaves the input file
    alone. *)
Lemma ParseFrom_keeps_inFile (n : nat) (args : list string) (f f' : Flags) :
  length args <= n ->
  Forall (fun s => Flag.named s <> Some Flag.InFile) args ->
  Flag.ParseFrom args f = Some f' -> inFile f' = inFile f.
Proof.
  revert args f. induction n as [|n IH]; intros args f Hn Hargs H.
  { destruct args; [|simpl in Hn; lia]. now injection H as <-. }
  destruct args as [|s rest]; [now injection H as <-|].
  simpl in Hn. inversion Hargs as [|? ? Hs Hrest]; subst.
  cbn [Flag.ParseFrom] in H.
  destruct s as [|c0 [|c1 s2]]; try (now injection H as <-).
  unfold Flag.named in Hs.
  destruct (Ascii.eqb c0 "-"); cbn [negb] in H; [|now injection H as <-].
  destruct (Ascii.eqb c1 "-" && String.eqb s2 EmptyString); [now injection H as <-|].
  destruct (String.eqb _ EmptyString || _ || _); [discriminate|].
  destruct (Flag.splitNameValue _) as [name value]. cbn [fst] in Hs.
  destruct (Flag.formal name) as [v|]; [|discriminate].
  assert (Hv : v <> Flag.InFile) by congruence.
  assert (Hset : forall value rest',
             length rest' <= n ->
             Forall (fun s => Flag.named s <> Some Flag.InFile) rest' ->
             (f1 ← Flag.set v value f; Flag.ParseFrom rest' f1) = Some f' ->
             inFile f' = inFile f).
  { intros value0 rest' Hlen Hall Hbind.
    destruct (Flag.set v value0 f) as [f1|] eqn:Hf1; [|discriminate].
    simpl in Hbind. rewrite (IH rest' f1 Hlen Hall Hbind).
    eapply set_keeps_inFile; eauto. }
  destruct (Flag.isBoolFlag v).
  - apply (Hset (default "true" value) rest); [lia | assumption | exact H].
  - destruct value as [value|].
    + apply (Hset value rest); [lia | assumption | exact H].
    + destruct rest as [|value rest']; [discriminate|].
      inversion Hrest; subst. simpl in Hn.
      apply (Hset value rest'); [lia | assumption | exact H].
Qed.

(** C3, amended: the program reads its URLs from the standard input when the
    input flag is set to the empty string, and from the file that the flag
    names otherwise; when no argument names the flag it has the value
    ["input"] it is declared with, so the file [input] is read. *)
Theorem startup_input (args urls : list string) (cfg : Flags) (w w' : World) :
  startup args w = Ready cfg urls w' ->
  Flag.Parse args = Some cfg
  /\ (Forall (fun s => Flag.named s <> Some Flag.InFile) args -> inFile cfg = "input")
  /\ (inFile cfg = EmptyString -> urls = Bufio.scanLines (stdin w))
  /\ (inFile cfg <> EmptyString ->
      exists file, files w' !! inFile cfg = Some file /\ urls = Bufio.scanLines file).
Proof.
  unfold startup.
  destruct (Flag.Parse args) as [cfg0|] eqn:Hparse; [|discriminate].
  assert (Hunset : Forall (fun s => Flag.named s <> Some Flag.InFile) args ->
                   inFile cfg0 = "input").
  { intros Hargs. apply (ParseFrom_keeps_inFile (length args) args Flag.defaults);
      [lia | assumption | exact Hparse]. }
  set (profile := if negb (String.eqb (cpuprofile cfg0) EmptyString) then _ else _).
  assert (Hin : stdin (snd profile) = stdin w).
  { subst profile. destruct (negb _); [|reflexivity].
    unfold Os.Create. pose proof (OpenFile_stdin (cpuprofile cfg0) false true w) as H.
    destruct (Os.OpenFile _ _ _ w) as [[f|e] w1]; exact H. }
  destruct profile as [[err|] w1]; [discriminate|]. simpl in Hin.
  destruct (browserStart w1); [discriminate|].
  pose proof (createOutputDir_keeps (output cfg0) w1) as (Hstdin & Hfiles & _).
  destruct (createOutputDir (output cfg0) w1) as [r w2]. simpl in *.
  destruct (String.eqb_spec (inFile cfg0) EmptyString) as [Hempty|Hfile]; simpl.
  - intros [= <- <- <-]. repeat split; try assumption; congruence.
  - unfold Os.Open. destruct (Os.isRefused w2 _); [discriminate|].
    destruct (files w2 !! inFile cfg0) as [file|] eqn:Hf; [|discriminate].
    intros [= <- <- <-]. repeat split; try assumption; try congruence.
    intros _. now exists file.
Qed.

End Start.

(** C3, as stated: with the input flag unset the program would read the
    standard input.  Without arguments it reads the file [input]. *)
Lemma unset_input_reads_file :
  Flag.Parse (lib := plainLibrary) [] = Some Flag.defaults
  /\ Bufio.scanLines (stdin inputWorld) = ["http://stdin.example/"]
  /\ exists w', startup (lib := plainLibrary) [] inputWorld
                = Ready Flag.defaults ["http://file.example/"] w'.
Proof. split; [reflexivity|]. split; [reflexivity|]. eexists. vm_compute. reflexivity. Qed.

Lemma startup_input_witness :
  Flag.Parse (lib := plainLibrary) [] = Some Flag.defaults
  /\ (Forall (fun s => Flag.named s <> Some Flag.InFile) [] -> inFile Flag.defaults = "input")
  /\ (inFile Flag.defaults = EmptyString ->
      ["http://file.example/"] = Bufio.scanLines (stdin inputWorld))
  /\ (inFile Flag.defaults <> EmptyString ->
      exists file, files (setDirs inputWorld {["out"]}) !! inFile Flag.defaults = Some file
                   /\ ["http://file.example/"] = Bufio.scanLines file).
Proof.
  apply (startup_input (lib := plainLibrary) [] ["http://file.example/"]
           Flag.defaults inputWorld (setDirs inputWorld {["out"]})).
  vm_compute. reflexivity.
Defined.

(** ** The pool of workers *)

Section Dispatch.
Context {lib : Library} (cfg : Flags).

Lemma steps_cons (n : nat) (s1 s2 s3 : Pool) :
  step cfg s1 s2 -> steps cfg n s2 s3 -> steps cfg (S n) s1 s3.
Proof.
  intros H12 H23. induction H23 as [s|n s2 s3 s4 _ IH H34].
  - eapply steps_S; [apply steps_O | exact H12].
  - eapply steps_S; [apply IH; exact H12 | exact H34].
Qed.

Lemma running_middle (ws : list Worker) (i : nat) (wk : Worker) :
  ws !! i = Some wk ->
  running ws = running (take i ws) ++ jobOf wk ++ running (drop (S i) ws).
Proof.
  intros H. unfold running.
  rewrite <- (take_drop_middle ws i wk H) at 1.
  now rewrite bind_app, bind_cons.
Qed.

Lemma running_insert (ws : list Worker) (i : nat) (wk wk' : Worker) :
  ws !! i = Some wk ->
  running (<[i := wk']> ws) = running (take i ws) ++ jobOf wk' ++ running (drop (S i) ws).
Proof.
  intros H. unfold running.
  rewrite insert_take_drop by (eapply lookup_lt_Some; eauto).
  now rewrite bind_app, bind_cons.
Qed.

Lemma weight_middle (ws : list Worker) (i : nat) (wk : Worker) :
  ws !! i = Some wk ->
  sum_list_with workerWeight ws
  = sum_list_with workerWeight (take i ws) + workerWeight wk
    + sum_list_with workerWeight (drop (S i) ws).
Proof.
  intros H. rewrite <- (take_drop_middle ws i wk H) at 1.
  rewrite sum_list_with_app. simpl. lia.
Qed.

Lemma weight_insert (ws : list Worker) (i : nat) (wk wk' : Worker) :
  ws !! i = Some wk ->
  sum_list_with workerWeight (<[i := wk']> ws)
  = sum_list_with workerWeight (take i ws) + workerWeight wk'
    + sum_list_with workerWeight (drop (S i) ws).
Proof.
  intros H. rewrite insert_take_drop by (eapply lookup_lt_Some; eauto).
  rewrite sum_list_with_app. simpl. lia.
Qed.

(** Every step lowers the measure: the pool cannot run forever. *)
Lemma step_workLeft (s s' : Pool) : step cfg s s' -> workLeft s' < workLeft s.
Proof.
  intros H. destruct H; unfold workLeft; cbn [pc workers pcWeight].
  - simpl. lia.
  - lia.
  - rewrite (weight_insert _ _ _ _ H), (weight_middle _ _ _ H). simpl. lia.
  - rewrite (weight_insert _ _ _ _ H), (weight_middle _ _ _ H). simpl. lia.
  - rewrite (weight_insert _ _ _ _ H), (weight_middle _ _ _ H). simpl. lia.
  - lia.
Qed.

Lemma steps_workLeft (n : nat) (s s' : Pool) :
  steps cfg n s s' -> n + workLeft s' <= workLeft s.
Proof.
  induction 1 as [s|n s1 s2 s3 _ IH H]; [lia|].
  apply step_workLeft in H. lia.
Qed.

Lemma workLeft_init (urls : list string) (w : World) :
  workLeft (initPool cfg urls w) = 3 * length urls + 2 + Z.to_nat (concurrency cfg).
Proof.
  unfold workLeft, initPool. cbn [pc workers pcWeight].
  induction (Z.to_nat (concurrency cfg)) as [|n IH]; simpl in *; lia.
Qed.

Lemma poolInv_init (urls : list string) (w : World) :
  poolInv urls (Z.to_nat (concurrency cfg)) (initPool cfg urls w).
Proof.
  split; cbn [initPool pc workers attempts resolved pending].
  - reflexivity.
  - simpl. induction (Z.to_nat (concurrency cfg)); [reflexivity | assumption].
  - apply length_replicate.
  - constructor.
  - right. right. apply Forall_replicate. discriminate.
  - discriminate.
  - apply Forall_replicate. exact I.
Qed.

Lemma poolInv_step (urls : list string) (n : nat) (s s' : Pool) :
  poolInv urls n s -> step cfg s s' -> poolInv urls n s'.
Proof.
  intros [Hatt Hres Hlen Hidx Hopen Hret Hctx] H.
  destruct H as [u rest ws w att res | ws w att res
                | i now u rest ws w att res Hi
                | i u ctx started browser r p ws w att res Hi Hrun
                | i ws w att res Hi | ws w att res Hall];
    cbn [pc workers attempts resolved pending] in *;
    (split; cbn [pc workers attempts resolved pending];
     try assumption; try discriminate; try (now auto);
     try (now rewrite length_insert);
     try (apply Forall_insert; [assumption | easy])).
  - (* scan: no worker has left *)
    destruct Hopen as [?|[?|?]]; try discriminate. auto.
  - (* hand over: the job moves from the input to the captures *)
    rewrite fmap_app. simpl. now rewrite <- app_assoc.
  - rewrite fmap_app. simpl.
    rewrite (running_insert _ _ _ _ Hi). rewrite (running_middle _ _ _ Hi) in Hres.
    simpl in *. rewrite <- Hres.
    rewrite !app_assoc. rewrite <- Permutation_middle.
    rewrite <- (Permutation_cons_append _ u). reflexivity.
  - apply Forall_app. split; [assumption|].
    constructor; [|constructor]. simpl. rewrite <- Hlen.
    eapply lookup_lt_Some; eauto.
  - right. right. destruct Hopen as [?|[?|?]]; try discriminate.
    apply Forall_insert; [assumption | discriminate].
  - (* finish: the job moves from the running jobs to the resolved ones *)
    rewrite fmap_app. simpl.
    rewrite (running_insert _ _ _ _ Hi). rewrite (running_middle _ _ _ Hi) in Hres.
    simpl in *. rewrite <- Hres.
    rewrite <- !app_assoc. simpl.
    apply Permutation_app_head. rewrite <- Permutation_middle. reflexivity.
  - destruct Hopen as [?|[?|?]]; auto.
    right. right. apply Forall_insert; [assumption | discriminate].
  - intros Hp. specialize (Hret Hp).
    rewrite Forall_lookup in Hret. specialize (Hret _ _ Hi). discriminate.
  - (* exit: a waiting worker runs no job *)
    rewrite (running_insert _ _ _ _ Hi). rewrite (running_middle _ _ _ Hi) in Hres.
    exact Hres.
Qed.

Lemma poolInv_steps (urls : list string) (w : World) (n : nat) (s : Pool) :
  steps cfg n (initPool cfg urls w) s ->
  poolInv urls (Z.to_nat (concurrency cfg)) s.
Proof.
  remember (initPool cfg urls w) as s0 eqn:Hs0.
  induction 1 as [s|n s1 s2 s3 _ IH H]; subst.
  - apply poolInv_init.
  - eapply poolInv_step; [apply IH; reflexivity | exact H].
Qed.

Lemma running_Exited (ws : list Worker) : Forall (eq Exited) ws -> running ws = [].
Proof. induction 1 as [|wk ws <- _ IH]; [reflexivity | exact IH]. Qed.

(** A worker that has not left can take a step, except when it waits for
    a job that [main] is not offering. *)
Lemma worker_can_step (i : nat) (wk : Worker) (s : Pool) :
  workers s !! i = Some wk -> wk <> Exited ->
  (exists u rest, pc s = Sending u rest) \/ pc s = Waiting ->
  exists s', step cfg s s'.
Proof.
  destruct s as [p ws w att res]. cbn [workers pc].
  intros Hi Hwk Hp. destruct wk as [|u ctx started|]; [| |congruence].
  - destruct Hp as [(u & rest & ->)| ->].
    + eexists. apply (step_handoff cfg i 0 u rest). exact Hi.
    + eexists. apply step_exit. exact Hi.
  - eexists.
    apply (step_finish cfg i u ctx started
             (fun _ => Chromedp.Completes 0 (Err DeadlineExceeded))
             (match Chromedp.deadline ctx with
              | Some d => if (started + 0 <? d)%Z then Err DeadlineExceeded
                          else Err DeadlineExceeded
              | None => Err DeadlineExceeded
              end)); [exact Hi|].
    unfold Chromedp.Run. destruct (Chromedp.deadline ctx); reflexivity.
Qed.

(** With at least one worker, a pool whose [main] has not returned can
    take a step. *)
Lemma pool_progress (urls : list string) (n : nat) (s : Pool) :
  0 < n -> poolInv urls n s -> pc s <> Returned -> exists s', step cfg s s'.
Proof.
  intros Hn Hinv Hp. destruct Hinv as [_ _ Hlen _ Hopen _ _].
  destruct s as [p ws w att res]. cbn [pc workers] in *.
  destruct p as [[|u rest]|u rest| |].
  - eexists. apply step_close.
  - eexists. apply step_scan.
  - destruct Hopen as [?|[?|Hopen]]; try discriminate.
    destruct ws as [|wk ws]; [simpl in Hlen; lia|].
    apply (worker_can_step 0 wk); cbn [workers pc]; eauto.
    now inversion Hopen.
  - assert (dec : forall wk : Worker, {Exited = wk} + {wk <> Exited}).
    { intros [| |]; [right | right | left]; congruence. }
    destruct (Forall_Exists_dec (eq Exited) (fun wk => wk <> Exited) dec ws) as [Hall|Hex].
    + eexists. apply step_return. exact Hall.
    + apply Exists_exists in Hex as (wk & Hin & Hwk).
      apply list_elem_of_lookup in Hin as [i Hi].
      apply (worker_can_step i wk); cbn [workers pc]; auto.
  - congruence.
Qed.

End Dispatch.

(** A run of the default pool of two workers on one URL. *)
Lemma readOnly_run :
  steps (lib := plainLibrary) Flag.defaults 7
    (initPool Flag.defaults ["http://example.com/"] readOnlyWorld) readOnlyFinal.
Proof.
  unfold initPool, readOnlyFinal. simpl replicate.
  eapply steps_cons; [apply step_scan|].
  eapply steps_cons; [apply (step_handoff _ 0 0); reflexivity|].
  eapply steps_cons.
  { eapply (step_finish _ 0 _ _ _ (fun _ => Chromedp.Completes Chromedp.Second (Ok "PNG")));
      reflexivity. }
  eapply steps_cons; [apply step_close|].
  eapply steps_cons; [apply (step_exit _ 0); reflexivity|].
  eapply steps_cons; [apply (step_exit _ 1); reflexivity|].
  eapply steps_cons; [apply step_return; repeat constructor|].
  apply steps_O.
Qed.

(** C4, at a failing input: the program started without arguments in
    [readOnlyWorld].  [createOutputDir] returns the error of [MkdirAll];
    [main] drops it, reads the jobs and runs them: the pool captures the URL
    and returns normally, where the claim has the process end with a fatal
    error before any job. *)
Theorem createOutputDir_error_dropped :
  (exists err, createOutputDir (lib := plainLibrary) "out" readOnlyWorld
               = (Some err, readOnlyWorld))
  /\ startup (lib := plainLibrary) [] readOnlyWorld
     = Ready Flag.defaults ["http://example.com/"] readOnlyWorld
  /\ steps (lib := plainLibrary) Flag.defaults 7
       (initPool Flag.defaults ["http://example.com/"] readOnlyWorld) readOnlyFinal
  /\ pc readOnlyFinal = Returned
  /\ attempts readOnlyFinal = [(0, "http://example.com/")].
Proof.
  split; [eexists; vm_compute; reflexivity|].
  split; [vm_compute; reflexivity|].
  split; [apply readOnly_run|].
  split; reflexivity.
Qed.

Section Jobs.
Context {lib : Library}.

(** [WriteFile] on a path that the system does not refuse replaces the
    content of the file. *)
Lemma WriteFile_ok (path data : string) (w : World) :
  Os.isRefused w path = false -> Os.isDir w path = false ->
  Os.WriteFile path data w = (None, setFiles w (<[path := data]> (files w))).
Proof.
  intros Href Hdir. unfold Os.WriteFile, Os.OpenFile. rewrite Href, Hdir.
  unfold Os.Write, Os.content, setFiles, GoStrings.slice, GoStrings.sliceFrom. simpl.
  rewrite lookup_insert_eq. simpl.
  destruct (String.length data); now rewrite append_empty_r, insert_insert_eq.
Qed.

Lemma finishJob_saved (cfg : Flags) (u buf path : string) (w : World) :
  makeFilepath (output cfg) u = Ok path ->
  Os.isRefused w (path +:+ ".png") = false ->
  Os.isDir w (path +:+ ".png") = false ->
  finishJob cfg u (Ok buf) w
  = (Saved (path +:+ ".png"), setFiles w (<[path +:+ ".png" := buf]> (files w))).
Proof.
  intros Hpath Href Hdir. unfold finishJob.
  now rewrite Hpath, WriteFile_ok.
Qed.

(** C5: the overwrite flag is parsed, yet the worker finishes a job in the
    same way whatever its value, and a captured image is written to the
    computed path even when a file is there: after two captures of the same
    URL the file holds the bytes of the second. *)
Theorem overwrite_never_consulted (cfg : Flags) (b : bool) (u buf1 buf2 path : string)
    (w : World) :
  makeFilepath (output cfg) u = Ok path ->
  Os.isRefused w (path +:+ ".png") = false ->
  Os.isDir w (path +:+ ".png") = false ->
  Flag.Parse ["-overwrite"] = Some (withOverwrite true Flag.defaults)
  /\ (forall r w0, finishJob (withOverwrite b cfg) u r w0 = finishJob cfg u r w0)
  /\ files (finishJob cfg u (Ok buf1) w).2 !! (path +:+ ".png") = Some buf1
  /\ files (finishJob cfg u (Ok buf2) (finishJob cfg u (Ok buf1) w).2).2
       !! (path +:+ ".png") = Some buf2.
Proof.
  intros Hpath Href Hdir. split; [reflexivity|]. split; [reflexivity|].
  rewrite (finishJob_saved cfg u buf1 path w) by assumption. cbn [snd].
  rewrite (finishJob_saved cfg u buf2 path) by assumption. cbn [snd setFiles files].
  split; apply lookup_insert_eq.
Qed.

End Jobs.

Lemma overwrite_never_consulted_witness :
  Flag.Parse (lib := plainLibrary) ["-overwrite"] = Some (withOverwrite true Flag.defaults)
  /\ (forall r w0,
     finishJob (lib := plainLibrary) (withOverwrite true Flag.defaults)
       "http://example.com/" r w0
     = finishJob (lib := plainLibrary) Flag.defaults "http://example.com/" r w0)
  /\ files (finishJob (lib := plainLibrary) Flag.defaults "http://example.com/"
              (Ok "first") emptyWorld).2
       !! ("out/example.com-index" +:+ ".png") = Some "first"
  /\ files (finishJob (lib := plainLibrary) Flag.defaults "http://example.com/"
              (Ok "second")
              (finishJob (lib := plainLibrary) Flag.defaults "http://example.com/"
                 (Ok "first") emptyWorld).2).2
       !! ("out/example.com-index" +:+ ".png") = Some "second".
Proof.
  apply (overwrite_never_consulted (lib := plainLibrary) Flag.defaults true
           "http://example.com/" "first" "second" "out/example.com-index" emptyWorld);
    vm_compute; reflexivity.
Defined.

Section Pool.
Context {lib : Library} (cfg : Flags).

(** Without a worker nobody takes the job that [main] offers: the pool is
    stuck. *)
Lemma pool_without_workers_blocks (u : string) (rest : list string) (w : World)
    (att : list (nat * string)) (res : list (string * Outcome)) (s' : Pool) :
  ~ step cfg (mkPool (Sending u rest) [] w att res) s'.
Proof.
  intros H. inversion H; subst;
    match goal with Hi : [] !! _ = Some _ |- _ => now rewrite lookup_nil in Hi end.
Qed.

(** C8: in a pool of at least one worker started on [N] URLs, every run is
    finite and can only end with [main] returned; at that point exactly [N]
    captures were started, one for each URL in the order of the input and each
    by one worker of the pool, all of them are resolved, none is running and
    every worker has left. *)
Theorem pool_runs_every_job (urls : list string) (w : World) (n : nat) (s : Pool) :
  (1 <= concurrency cfg)%Z ->
  steps cfg n (initPool cfg urls w) s ->
  n <= 3 * length urls + 2 + Z.to_nat (concurrency cfg)
  /\ (pc s <> Returned -> exists s', step cfg s s')
  /\ (pc s = Returned ->
      (attempts s).*2 = urls
      /\ length (attempts s) = length urls
      /\ Forall (fun a => a.1 < Z.to_nat (concurrency cfg)) (attempts s)
      /\ (resolved s).*1 ≡ₚ urls
      /\ running (workers s) = []
      /\ Forall (eq Exited) (workers s)).
Proof.
  intros Hc Hrun.
  pose proof (poolInv_steps cfg urls w n s Hrun) as Hinv.
  split; [|split].
  - apply steps_workLeft in Hrun. rewrite workLeft_init in Hrun. lia.
  - apply (pool_progress cfg urls (Z.to_nat (concurrency cfg))); [lia | exact Hinv].
  - intros Hp. destruct Hinv as [Hatt Hres _ Hidx _ Hret _].
    rewrite Hp in Hatt. cbn [pending] in Hatt. rewrite app_nil_r in Hatt.
    rewrite (running_Exited _ (Hret Hp)), app_nil_r, Hatt in Hres.
    repeat split; auto.
    + now rewrite <- Hatt, length_fmap.
    + now apply running_Exited, Hret.
Qed.

End Pool.

(** The state [capturingPool] is reached in two steps. *)
Lemma capturingPool_reached :
  steps (lib := plainLibrary) Flag.defaults 2
    (initPool Flag.defaults ["http://example.com/"] emptyWorld) capturingPool.
Proof.
  unfold initPool, capturingPool. simpl replicate.
  eapply steps_cons; [apply step_scan|].
  eapply steps_cons; [apply (step_handoff _ 0 5); reflexivity|].
  apply steps_O.
Qed.

Lemma pool_runs_every_job_witness :
  7 <= 3 * length ["http://example.com/"] + 2 + Z.to_nat (concurrency Flag.defaults)
  /\ (pc readOnlyFinal <> Returned ->
      exists s', step (lib := plainLibrary) Flag.defaults readOnlyFinal s')
  /\ (pc readOnlyFinal = Returned ->
      (attempts readOnlyFinal).*2 = ["http://example.com/"]
      /\ length (attempts readOnlyFinal) = length ["http://example.com/"]
      /\ Forall (fun a => a.1 < Z.to_nat (concurrency Flag.defaults))
           (attempts readOnlyFinal)
      /\ (resolved readOnlyFinal).*1 ≡ₚ ["http://example.com/"]
      /\ running (workers readOnlyFinal) = []
      /\ Forall (eq Exited) (workers readOnlyFinal)).
Proof.
  apply (pool_runs_every_job (lib := plainLibrary) Flag.defaults
           ["http://example.com/"] readOnlyWorld 7 readOnlyFinal).
  - vm_compute. discriminate.
  - exact readOnly_run.
Defined.

(** ** The shape of the paths *)

Lemma savePathClass_ascii (c : ascii) : savePathClass c = true -> (byteVal c <? 128)%N = true.
Proof.
  destruct c as [[] [] [] [] [] [] [] []]; vm_compute; intros H;
    first [reflexivity | discriminate H].
Qed.

Lemma replaceOutside_id (s : string) :
  allIn savePathClass s = true -> Regexp.replaceOutside savePathClass "-" 0 s = s.
Proof.
  induction s as [|c s IH]; [reflexivity|]. simpl. intros H.
  apply andb_true_iff in H as [Hc Hs].
  now rewrite (savePathClass_ascii c Hc), Hc, IH.
Qed.

Lemma replaceRuns_id (c : ascii) (s : string) (st : bool) :
  noDoubleFrom st c s = true ->
  Regexp.replaceRuns c (String c EmptyString) st s = s.
Proof.
  revert st. induction s as [|d s IH]; intros st H; [reflexivity|].
  cbn [Regexp.replaceRuns noDoubleFrom] in *.
  destruct (Ascii.eqb_spec d c) as [->|Hd].
  - apply andb_true_iff in H as [Hst H]. destruct st; [discriminate|].
    cbn [String.append]. now rewrite IH.
  - now rewrite IH.
Qed.

(** The output of a run replacement has no doubled byte. *)
Lemma replaceRuns_noDouble (c : ascii) (s : string) (st : bool) :
  noDoubleFrom st c (Regexp.replaceRuns c (String c EmptyString) st s) = true.
Proof.
  revert st. induction s as [|d s IH]; intros st; [reflexivity|].
  cbn [Regexp.replaceRuns].
  destruct (Ascii.eqb_spec d c) as [->|Hd].
  - destruct st; [apply IH|].
    cbn [String.append noDoubleFrom]. rewrite Ascii.eqb_refl. apply IH.
  - cbn [noDoubleFrom]. destruct (Ascii.eqb_spec d c); [congruence|]. apply IH.
Qed.

(** Replacing the runs of one byte cannot bring two copies of another byte
    together. *)
Lemma replaceRuns_keeps_noDouble (c d : ascii) (s : string) (st p : bool) :
  c <> d ->
  noDoubleFrom p d s = true ->
  noDoubleFrom (if st then false else p) d
    (Regexp.replaceRuns c (String c EmptyString) st s) = true.
Proof.
  intros Hcd. revert st p. induction s as [|x s IH]; intros st p H; [reflexivity|].
  cbn [Regexp.replaceRuns noDoubleFrom] in *.
  destruct (Ascii.eqb_spec x c) as [->|Hxc].
  - destruct (Ascii.eqb_spec c d) as [|_]; [congruence|].
    destruct st.
    + apply (IH true false H).
    + cbn [String.append noDoubleFrom].
      destruct (Ascii.eqb_spec c d) as [|_]; [congruence|].
      apply (IH true false H).
  - cbn [noDoubleFrom]. destruct (Ascii.eqb_spec x d) as [->|Hxd].
    + apply andb_true_iff in H as [Hp H]. destruct p; [discriminate|].
      destruct st; cbn [negb andb]; apply (IH false true H).
    + apply (IH false false H).
Qed.

Lemma trimSlash_noDouble (c : ascii) (s : string) (p : bool) :
  noDoubleFrom p c s = true -> noDoubleFrom p c (trimSlash s) = true.
Proof.
  revert p. induction s as [|x s IH]; intros p H; [reflexivity|].
  destruct s as [|y s].
  - cbn [trimSlash]. destruct (Ascii.eqb x "/"); [reflexivity | exact H].
  - rewrite trimSlash_cons by discriminate.
    cbn [noDoubleFrom] in *. destruct (Ascii.eqb x c).
    + apply andb_true_iff in H as [Hp H]. rewrite Hp. now apply IH.
    + now apply IH.
Qed.

(** After the trim a path without doubled slash does not end with a slash. *)
Lemma trimSlash_endsWith (s : string) (p : bool) :
  noDoubleFrom p "/" s = true -> endsWith "/" (trimSlash s) = false.
Proof.
  revert p. induction s as [|x s IH]; intros p H; [reflexivity|].
  destruct s as [|y s].
  - cbn [trimSlash]. destruct (Ascii.eqb x "/") eqn:Hx; [reflexivity|].
    cbn [endsWith]. exact Hx.
  - rewrite trimSlash_cons by discriminate.
    cbn [noDoubleFrom] in H.
    assert (Htail : exists q, noDoubleFrom q "/" (String y s) = true).
    { destruct (Ascii.eqb x "/"); [apply andb_true_iff in H as [_ H]|]; eauto. }
    destruct Htail as [q Hq]. specialize (IH q Hq).
    destruct (trimSlash (String y s)) as [|z t] eqn:Ht; [|exact IH].
    (* the tail was a lone slash: then [x] is no slash *)
    destruct s as [|y' s]; [|rewrite trimSlash_cons in Ht by discriminate; discriminate].
    cbn [trimSlash] in Ht. destruct (Ascii.eqb y "/") eqn:Hy; [|discriminate].
    cbn [endsWith]. destruct (Ascii.eqb x "/") eqn:Hx; [|reflexivity].
    cbn in H. rewrite andb_false_r in H. discriminate.
Qed.

Lemma trimSlash_id (s : string) : endsWith "/" s = false -> trimSlash s = s.
Proof.
  induction s as [|x s IH]; [reflexivity|]. destruct s as [|y s]; intros H.
  - cbn in *. now rewrite H.
  - rewrite trimSlash_cons by discriminate. now rewrite IH.
Qed.

(** The passes of [makeFilepath] yield a clean path. *)
Lemma cleanSavePath_cleanPath (s : string) : cleanPath (cleanSavePath s) = true.
Proof.
  unfold cleanPath. rewrite cleanSavePath_allIn.
  unfold cleanSavePath, Regexp.ReplaceAllOutside, Regexp.ReplaceAllRuns, noDouble.
  rewrite TrimSuffix_slash.
  set (dashed := Regexp.replaceRuns "-" "-" false _).
  assert (Hdash : noDoubleFrom false "-" dashed = true) by apply replaceRuns_noDouble.
  rewrite (trimSlash_noDouble "-" _ false
             (replaceRuns_keeps_noDouble "/" "-" dashed false false ltac:(discriminate) Hdash)).
  rewrite (trimSlash_noDouble "/" _ false (replaceRuns_noDouble "/" dashed false)).
  now rewrite (trimSlash_endsWith _ false (replaceRuns_noDouble "/" dashed false)).
Qed.

(** A clean path is left as it is. *)
Lemma cleanSavePath_id (s : string) : cleanPath s = true -> cleanSavePath s = s.
Proof.
  unfold cleanPath, noDouble. intros H.
  apply andb_true_iff in H as [H Hend]. apply andb_true_iff in H as [H Hslash].
  apply andb_true_iff in H as [Hclass Hdash]. apply negb_true_iff in Hend.
  unfold cleanSavePath, Regexp.ReplaceAllOutside, Regexp.ReplaceAllRuns.
  rewrite TrimSuffix_slash, replaceOutside_id by assumption.
  rewrite (replaceRuns_id "-") by assumption.
  rewrite (replaceRuns_id "/") by assumption.
  now apply trimSlash_id.
Qed.

(** X1: every path that [makeFilepath] returns, for any output directory and
    URL, has only bytes of the class [[a-zA-Z0-9_.%/-]], no two dashes in a
    row, no two slashes in a row and no slash at its end. *)
Theorem makeFilepath_clean (prefix requestURL path : string) :
  makeFilepath prefix requestURL = Ok path ->
  allIn savePathClass path = true
  /\ noDouble "-" path = true
  /\ noDouble "/" path = true
  /\ endsWith "/" path = false.
Proof.
  unfold makeFilepath. destruct (Url.Parse requestURL) as [u|e]; [|discriminate].
  cbn [bind]. intros [= <-].
  pose proof (cleanSavePath_cleanPath
                (prefix +:+ "/" +:+ Url.Hostname u
                 +:+ Regexp.ReplaceAllOutside pathClass
                       (if String.eqb (Url.EscapedPath u) "/" then "/index"
                        else Url.EscapedPath u) "-")) as H.
  unfold cleanPath in H.
  apply andb_true_iff in H as [H Hend]. apply andb_true_iff in H as [H Hslash].
  apply andb_true_iff in H as [Hclass Hdash]. apply negb_true_iff in Hend.
  auto.
Qed.

Lemma makeFilepath_clean_witness :
  allIn savePathClass "a-b/example.com-x-y" = true
  /\ noDouble "-" "a-b/example.com-x-y" = true
  /\ noDouble "/" "a-b/example.com-x-y" = true
  /\ endsWith "/" "a-b/example.com-x-y" = false.
Proof.
  apply (makeFilepath_clean "a  b//" "http://example.com/x//y?q=1#top").
  vm_compute. reflexivity.
Defined.

(** X2: when the output directory is already a clean path (bytes of the class
    only, no doubled dash or slash, no slash at the end), the path that
    [makeFilepath] returns starts with the directory as given. *)
Theorem makeFilepath_keeps_clean_prefix (prefix requestURL path : string) :
  cleanPath prefix = true ->
  makeFilepath prefix requestURL = Ok path ->
  GoStrings.HasPrefix path prefix = true.
Proof.
  intros Hclean. unfold makeFilepath, GoStrings.HasPrefix.
  destruct (Url.Parse requestURL) as [u|e]; [|discriminate].
  cbn [bind]. intros [= <-].
  rewrite <- (cleanSavePath_id prefix Hclean) at 1.
  apply cleanSavePath_append.
Qed.

Lemma makeFilepath_keeps_clean_prefix_witness :
  GoStrings.HasPrefix "shots/2024-01/example.com-index" "shots/2024-01" = true.
Proof.
  apply (makeFilepath_keeps_clean_prefix "shots/2024-01" "https://example.com/");
    vm_compute; reflexivity.
Defined.

(** ** Files, log and worker body *)

Section Files.
Context {lib : Library}.

Lemma fold_joinLines (inData : list string) (buf : string) :
  fold_left (fun buf data => buf +:+ (data +:+ LF)) inData buf = buf +:+ joinLines inData.
Proof.
  revert buf. induction inData as [|d ds IH]; intros buf; simpl.
  - now rewrite append_empty_r.
  - now rewrite IH, !append_assoc.
Qed.

(** X3: [writeDataFile] in append mode, on a path that the system lets it
    open, returns no error and appends every datum followed by a line feed, in
    order, after the content the file had (the file is created when it is
    missing); no other file changes. *)
Theorem writeDataFile_appends (inData : list string) (path : string) (w : World) :
  Os.isRefused w path = false ->
  Os.isDir w path = false ->
  writeDataFile inData path true w
  = (None, setFiles w (<[path := Os.content w path +:+ joinLines inData]> (files w))).
Proof.
  intros Href Hdir. unfold writeDataFile, Os.OpenFile.
  rewrite Href, Hdir.
  unfold Os.isRefused, Os.isDir in *. simpl refused. simpl dirs. rewrite Href, Hdir.
  rewrite fold_joinLines.
  unfold Os.Write, Os.content, setFiles. simpl.
  now rewrite !lookup_insert_eq, !insert_insert_eq.
Qed.

(** X4: [writeDataFile] without append mode opens the file without
    truncating it and writes from its start: the new text replaces as many
    bytes of the old content as it has, and the rest of the old content
    stays after it. *)
Theorem writeDataFile_overwrites_in_place (inData : list string) (path : string)
    (w : World) :
  Os.isRefused w path = false ->
  Os.isDir w path = false ->
  writeDataFile inData path false w
  = (None,
     setFiles w
       (<[path := joinLines inData
                  +:+ GoStrings.sliceFrom (Os.content w path)
                        (String.length (joinLines inData))]> (files w))).
Proof.
  intros Href Hdir. unfold writeDataFile, Os.OpenFile.
  rewrite Href, Hdir. rewrite fold_joinLines.
  unfold Os.Write, Os.content, setFiles, GoStrings.slice. simpl.
  rewrite !lookup_insert_eq, !insert_insert_eq. simpl.
  now destruct (default EmptyString (files w !! path)).
Qed.

(** X5: when the system refuses the path, or the path is a directory,
    [writeDataFile] returns the error of the open and changes nothing, in
    either mode. *)
Theorem writeDataFile_refused (inData : list string) (path : string) (append : bool)
    (w : World) :
  Os.isRefused w path = true \/ Os.isDir w path = true ->
  exists err, writeDataFile inData path append w = (Some err, w).
Proof.
  intros H. unfold writeDataFile, Os.OpenFile.
  destruct (Os.isRefused w path) eqn:Href.
  - destruct append; [rewrite Href|]; eexists; reflexivity.
  - destruct H as [H|H]; [discriminate|]. rewrite H.
    destruct append; [rewrite Href, H|]; eexists; reflexivity.
Qed.

(** What [handleError] changes and what it leaves. *)
Lemma handleError_effects (err : error) (url : string) (w : World) :
  let w' := handleError err url w in
  stderr w' = stderr w +:+ failureLine err url
  /\ stdout w' = stdout w
  /\ stdin w' = stdin w
  /\ dirs w' = dirs w
  /\ refused w' = refused w
  /\ (forall path, path <> "errorLog.txt" -> files w' !! path = files w !! path)
  /\ (Os.isRefused w "errorLog.txt" || Os.isDir w "errorLog.txt" = true ->
      files w' = files w).
Proof.
  unfold handleError, failureLine.
  set (line := "run error: " +:+ errorText err +:+ " ------ " +:+ url +:+ LF).
  set (w1 := printErr w line).
  destruct (Os.isRefused w "errorLog.txt" || Os.isDir w "errorLog.txt") eqn:Hopen.
  - destruct (writeDataFile_refused [line] "errorLog.txt" true w1) as [e He].
    { apply orb_true_iff in Hopen. exact Hopen. }
    rewrite He. cbn. repeat split; auto.
  - apply orb_false_iff in Hopen as [Href Hdir].
    rewrite (writeDataFile_appends [line] "errorLog.txt" w1 Href Hdir).
    cbn. repeat split; auto; try discriminate.
    intros path Hpath. now rewrite lookup_insert_ne.
Qed.

(** The two ways in which the worker's loop body ends. *)
Lemma finishJob_cases (cfg : Flags) (requestURL : string)
    (r : result error string) (w : World) :
  match finishJob cfg requestURL r w with
  | (Saved file, w') =>
      exists buf path,
        r = Ok buf
        /\ makeFilepath (output cfg) requestURL = Ok path
        /\ file = path +:+ ".png"
        /\ files w' = <[file := buf]> (files w)
        /\ stderr w' = stderr w
        /\ stdout w' = stdout w
  | (Failed err, w') =>
      stderr w' = stderr w +:+ failureLine err requestURL
      /\ stdout w' = stdout w
      /\ forall path, path <> "errorLog.txt" -> files w' !! path = files w !! path
  end.
Proof.
  unfold finishJob.
  destruct r as [buf|err].
  - destruct (makeFilepath (output cfg) requestURL) as [path|e].
    + unfold Os.WriteFile, Os.OpenFile.
      destruct (Os.isRefused w _); [|destruct (Os.isDir w _)];
        try (pose proof (handleError_effects
                           (PathError "open" (path +:+ ".png") "permission denied")
                           requestURL w) as (? & ? & _ & _ & _ & ? & _); now auto);
        try (pose proof (handleError_effects
                           (PathError "open" (path +:+ ".png") "is a directory")
                           requestURL w) as (? & ? & _ & _ & _ & ? & _); now auto).
      exists buf, path.
      unfold Os.Write, Os.content, setFiles, GoStrings.slice, GoStrings.sliceFrom. simpl.
      rewrite lookup_insert_eq. simpl.
      destruct (String.length buf); now rewrite append_empty_r, insert_insert_eq.
    + pose proof (handleError_effects (UrlError e) requestURL w)
        as (? & ? & _ & _ & _ & ? & _). now auto.
  - pose proof (handleError_effects err requestURL w) as (? & ? & _ & _ & _ & ? & _).
    now auto.
Qed.

(** X6: [handleError] always prints its line on the standard error, even when
    the log cannot be written, in which case no file changes; it never
    prints on the standard output and never changes a file other than
    [errorLog.txt], a directory or what the system refuses. *)
Theorem handleError_frame (err : error) (url : string) (w : World) :
  let w' := handleError err url w in
  stderr w' = stderr w +:+ failureLine err url
  /\ stdout w' = stdout w
  /\ stdin w' = stdin w
  /\ dirs w' = dirs w
  /\ refused w' = refused w
  /\ (forall path, path <> "errorLog.txt" -> files w' !! path = files w !! path)
  /\ (Os.isRefused w "errorLog.txt" || Os.isDir w "errorLog.txt" = true ->
      files w' = files w).
Proof. apply handleError_effects. Qed.

(** X7: the worker's loop body either saves or reports, never both.  When
    the job is saved, the capture had succeeded, the file is the path of
    [makeFilepath] with [.png], it holds the image, and nothing is printed
    and no other file changes.  When the job fails, its line is printed on
    the standard error and no file other than [errorLog.txt] changes: no
    image is written. *)
Theorem finishJob_saves_or_reports (cfg : Flags) (requestURL : string)
    (r : result error string) (w : World) :
  match finishJob cfg requestURL r w with
  | (Saved file, w') =>
      exists buf path,
        r = Ok buf
        /\ makeFilepath (output cfg) requestURL = Ok path
        /\ file = path +:+ ".png"
        /\ files w' = <[file := buf]> (files w)
        /\ stderr w' = stderr w
        /\ stdout w' = stdout w
  | (Failed err, w') =>
      stderr w' = stderr w +:+ failureLine err requestURL
      /\ stdout w' = stdout w
      /\ forall path, path <> "errorLog.txt" -> files w' !! path = files w !! path
  end.
Proof. apply finishJob_cases. Qed.

End Files.

Lemma writeDataFile_appends_witness :
  writeDataFile ["a"; "b"] "notes.txt" true emptyWorld
  = (None,
     setFiles emptyWorld
       (<["notes.txt" := Os.content emptyWorld "notes.txt" +:+ joinLines ["a"; "b"]]>
          (files emptyWorld))).
Proof.
  apply (writeDataFile_appends ["a"; "b"] "notes.txt" emptyWorld);
    reflexivity.
Defined.

Lemma writeDataFile_overwrites_in_place_witness :
  writeDataFile ["a"] "input" false inputWorld
  = (None,
     setFiles inputWorld
       (<["input" := joinLines ["a"]
                     +:+ GoStrings.sliceFrom (Os.content inputWorld "input")
                           (String.length (joinLines ["a"]))]> (files inputWorld))).
Proof.
  apply (writeDataFile_overwrites_in_place ["a"] "input" inputWorld);
    reflexivity.
Defined.

Lemma writeDataFile_refused_witness :
  exists err,
    writeDataFile ["a"] "out" true readOnlyWorld
    = (Some err, readOnlyWorld).
Proof.
  apply (writeDataFile_refused ["a"] "out" true readOnlyWorld).
  left. reflexivity.
Defined.

(** ** What the pool prints and how much it runs at once *)

Section PoolOutput.
Context {lib : Library} (cfg : Flags).

Lemma joinLines_cons (u : string) (rest : list string) :
  joinLines (u :: rest) = (u +:+ LF) +:+ joinLines rest.
Proof. cbn [joinLines]. now rewrite append_assoc. Qed.

Lemma failureReport_app (res res' : list (string * Outcome)) :
  failureReport (res ++ res') = failureReport res +:+ failureReport res'.
Proof.
  induction res as [|[u [file|err]] res IH]; cbn [app failureReport];
    [reflexivity | exact IH | now rewrite IH, append_assoc].
Qed.

Lemma finishJob_stdout (u : string) (r : result error string) (w : World) :
  stdout (finishJob cfg u r w).2 = stdout w.
Proof.
  pose proof (finishJob_cases cfg u r w) as H.
  destruct (finishJob cfg u r w) as [[file|err] w']; cbn [snd].
  - destruct H as (buf & path & _ & _ & _ & _ & _ & H). exact H.
  - destruct H as (_ & H & _). exact H.
Qed.

Lemma finishJob_stderr (u : string) (r : result error string) (w : World) :
  stderr (finishJob cfg u r w).2
  = stderr w +:+ failureReport [(u, (finishJob cfg u r w).1)].
Proof.
  pose proof (finishJob_cases cfg u r w) as H.
  destruct (finishJob cfg u r w) as [[file|err] w']; cbn [fst snd failureReport].
  - destruct H as (buf & path & _ & _ & _ & _ & H & _). now rewrite append_empty_r.
  - destruct H as (H & _). now rewrite append_empty_r.
Qed.

(** A step echoes at most the job it scans, and reports at most the job it
    finishes. *)
Lemma step_output (s s' : Pool) :
  step cfg s s' ->
  stdout (world s') +:+ joinLines (unscanned (pc s'))
  = stdout (world s) +:+ joinLines (unscanned (pc s))
  /\ exists res, resolved s' = resolved s ++ res
                 /\ stderr (world s') = stderr (world s) +:+ failureReport res.
Proof.
  intros H.
  destruct H as [u rest ws w att res | ws w att res
                | i now u rest ws w att res Hi
                | i u ctx started browser r p ws w att res Hi Hrun
                | i ws w att res Hi | ws w att res Hall];
    cbn [world pc resolved unscanned].
  all: try (split; [reflexivity | exists []; now rewrite app_nil_r, append_empty_r]).
  - split.
    + cbn [printOut stdout]. now rewrite joinLines_cons, !append_assoc.
    + exists []. now rewrite app_nil_r, append_empty_r.
  - split.
    + now rewrite finishJob_stdout.
    + eexists. split; [reflexivity|]. apply finishJob_stderr.
Qed.

Lemma steps_output (n : nat) (s s' : Pool) :
  steps cfg n s s' ->
  stdout (world s') +:+ joinLines (unscanned (pc s'))
  = stdout (world s) +:+ joinLines (unscanned (pc s))
  /\ exists res, resolved s' = resolved s ++ res
                 /\ stderr (world s') = stderr (world s) +:+ failureReport res.
Proof.
  induction 1 as [s|n s1 s2 s3 _ [IHout (res & IHres & IHerr)] H].
  - split; [reflexivity | exists []; now rewrite app_nil_r, append_empty_r].
  - apply step_output in H as [Hout (res' & Hres & Herr)]. split.
    + now rewrite Hout.
    + exists (res ++ res'). split.
      * now rewrite Hres, IHres, app_assoc.
      * now rewrite Herr, IHerr, failureReport_app, append_assoc.
Qed.

(** X8: at every moment of a run the standard output holds, after what it
    held at the start, the URLs that [main] has scanned so far, one per line
    and in the order of the input; only [main] prints there.  When the input
    is exhausted, that is every URL of the input. *)
Theorem pool_echoes_input (urls : list string) (w : World) (n : nat) (s : Pool) :
  steps cfg n (initPool cfg urls w) s ->
  stdout (world s) +:+ joinLines (unscanned (pc s)) = stdout w +:+ joinLines urls
  /\ (pc s = Waiting \/ pc s = Returned -> stdout (world s) = stdout w +:+ joinLines urls).
Proof.
  intros Hrun. apply steps_output in Hrun as [Hout _].
  cbn [initPool world pc unscanned] in Hout. split; [exact Hout|].
  intros [Hp|Hp]; rewrite Hp in Hout; cbn [unscanned joinLines] in Hout;
    now rewrite append_empty_r in Hout.
Qed.

(** X9: at every moment of a run the standard error holds, after what it
    held at the start, one line for each job that has failed so far and no
    line for a job that was saved, in the order in which the jobs were
    resolved. *)
Theorem pool_reports_failures (urls : list string) (w : World) (n : nat) (s : Pool) :
  steps cfg n (initPool cfg urls w) s ->
  stderr (world s) = stderr w +:+ failureReport (resolved s).
Proof.
  intros Hrun. apply steps_output in Hrun as [_ (res & Hres & Herr)].
  cbn [initPool world resolved app] in *. now rewrite Hres.
Qed.

Lemma running_length (ws : list Worker) : length (running ws) <= length ws.
Proof.
  unfold running. induction ws as [|wk ws IH]; [reflexivity|].
  rewrite bind_cons, length_app. destruct wk; simpl in *; lia.
Qed.



End PoolOutput.

Lemma pool_echoes_input_witness :
  stdout (world readOnlyFinal) +:+ joinLines (unscanned (pc readOnlyFinal))
  = stdout readOnlyWorld +:+ joinLines ["http://example.com/"]
  /\ (pc readOnlyFinal = Waiting \/ pc readOnlyFinal = Returned ->
      stdout (world readOnlyFinal)
      = stdout readOnlyWorld +:+ joinLines ["http://example.com/"]).
Proof.
  apply (pool_echoes_input (lib := plainLibrary) Flag.defaults
           ["http://example.com/"] readOnlyWorld 7 readOnlyFinal).
  exact readOnly_run.
Defined.

Lemma pool_reports_failures_witness :
  stderr (world readOnlyFinal)
  = stderr readOnlyWorld +:+ failureReport (lib := plainLibrary) (resolved readOnlyFinal).
Proof.
  apply (pool_reports_failures (lib := plainLibrary) Flag.defaults
           ["http://example.com/"] readOnlyWorld 7 readOnlyFinal).
  exact readOnly_run.
Defined.


(** The state [blockedPool] is reached in one step. *)
Lemma blockedPool_reached :
  steps (lib := plainLibrary) (withConcurrency 0 Flag.defaults) 1
    (initPool (withConcurrency 0 Flag.defaults) ["http://example.com/"] emptyWorld)
    blockedPool.
Proof.
  unfold initPool, blockedPool. simpl replicate.
  eapply steps_cons; [apply step_scan | apply steps_O].
Qed.

Section OutputDir.
Context {lib : Library}.


End OutputDir.



(** ** The host name has no slash *)

Lemma unescapeCheck_other (mode : Url.encoding) (c : ascii) (rest : string) :
  c <> "%"%char ->
  Url.unescapeCheck mode (String c rest)
  = if negb (Ascii.eqb c "+") && Url.isHostOrZone mode && (byteVal c <? 128)%N
       && Url.shouldEscape c Url.encodeHost
    then Some (Url.InvalidHostError (String c EmptyString))
    else Url.unescapeCheck mode rest.
Proof.
  intros Hc. destruct c as [[] [] [] [] [] [] [] []];
    first [reflexivity | exfalso; apply Hc; reflexivity].
Qed.

Lemma unescapeDecode_other (mode : Url.encoding) (c : ascii) (rest : string) :
  c <> "%"%char ->
  Url.unescapeDecode mode (String c rest)
  = String (if Ascii.eqb c "+"
            then match mode with Url.encodeQueryComponent => " " | _ => "+" end
            else c)%char
      (Url.unescapeDecode mode rest).
Proof.
  intros Hc. destruct c as [[] [] [] [] [] [] [] []];
    first [reflexivity | exfalso; apply Hc; reflexivity].
Qed.

Lemma unhex_lt (c : ascii) : (Url.unhex c < 16)%N.
Proof. destruct c as [[] [] [] [] [] [] [] []]; vm_compute; reflexivity. Qed.

Lemma slice_three (a b c : ascii) (rest : string) :
  GoStrings.slice (String a (String b (String c rest))) 0 3
  = String a (String b (String c EmptyString)).
Proof. now destruct rest. Qed.

(** A decoded escape of a host is no slash: it is a byte above 127 or the
    percent sign. *)
Lemma host_escape_no_slash (h1 h2 : ascii) :
  (Url.unhex h1 <? 8)%N && negb (String.eqb (String "%" (String h1 (String h2 EmptyString))) "%25")
  = false ->
  Ascii.eqb (ascii_of_N (16 * Url.unhex h1 + Url.unhex h2)) "/" = false.
Proof.
  intros H. apply Ascii.eqb_neq. intros Hv.
  apply andb_false_iff in H as [H|H].
  - apply N.ltb_ge in H.
    pose proof (unhex_lt h1). pose proof (unhex_lt h2).
    apply (f_equal N_of_ascii) in Hv.
    rewrite N_ascii_embedding in Hv by lia. cbn in Hv. lia.
  - apply negb_false_iff, String.eqb_eq in H. injection H as -> ->.
    vm_compute in Hv. discriminate.
Qed.

Lemma zone_escape_no_slash (h1 h2 : ascii) :
  negb (String.eqb (String "%" (String h1 (String h2 EmptyString))) "%25")
  && negb (Ascii.eqb (ascii_of_N (16 * Url.unhex h1 + Url.unhex h2)) " ")
  && Url.shouldEscape (ascii_of_N (16 * Url.unhex h1 + Url.unhex h2)) Url.encodeHost
  = false ->
  Ascii.eqb (ascii_of_N (16 * Url.unhex h1 + Url.unhex h2)) "/" = false.
Proof.
  intros H. apply Ascii.eqb_neq. intros Hv. rewrite Hv in H.
  change (Ascii.eqb "/" " ") with false in H.
  change (Url.shouldEscape "/" Url.encodeHost) with true in H.
  cbn [negb] in H. rewrite !andb_true_r in H.
  apply negb_false_iff, String.eqb_eq in H. injection H as -> ->.
  vm_compute in Hv. discriminate.
Qed.

(** In a host or a zone, [unescape] lets no slash through and decodes none. *)
Lemma unescapeDecode_no_slash (n : nat) (mode : Url.encoding) (s : string) :
  Url.isHostOrZone mode = true ->
  String.length s <= n ->
  Url.unescapeCheck mode s = None ->
  without "/" (Url.unescapeDecode mode s) = true.
Proof.
  intros Hmode. revert s. induction n as [|n IH]; intros s Hn H.
  { destruct s; [reflexivity | simpl in Hn; lia]. }
  destruct s as [|c rest]; [reflexivity|]. simpl in Hn.
  destruct (Ascii.eqb_spec c "%") as [->|Hc].
  - destruct rest as [|h1 [|h2 rest']]; try discriminate.
    cbn [Url.unescapeCheck] in H.
    destruct (negb (Url.ishex h1 && Url.ishex h2)); [discriminate|].
    rewrite !slice_three in H.
    change (Url.unescapeDecode mode (String "%" (String h1 (String h2 rest'))))
      with (String (ascii_of_N (16 * Url.unhex h1 + Url.unhex h2))
              (Url.unescapeDecode mode rest')).
    unfold without. cbn [allIn]. fold (without "/" (Url.unescapeDecode mode rest')).
    simpl in Hn.
    destruct mode; try discriminate; cbn [andb] in H.
    + destruct (_ && negb _) eqn:Hesc in H; [discriminate|].
      rewrite (host_escape_no_slash _ _ Hesc). cbn [negb andb].
      apply IH; [lia | exact H].
    + destruct (_ && _ && _) eqn:Hesc in H; [discriminate|].
      rewrite (zone_escape_no_slash _ _ Hesc). cbn [negb andb].
      apply IH; [lia | exact H].
  - rewrite unescapeCheck_other in H by assumption.
    rewrite unescapeDecode_other by assumption.
    unfold without. cbn [allIn]. fold (without "/" (Url.unescapeDecode mode rest)).
    rewrite Hmode in H.
    destruct (Ascii.eqb_spec c "+") as [->|Hplus].
    + cbn in H. destruct mode; try discriminate; cbn; apply IH; auto; lia.
    + destruct (Ascii.eqb_spec c "/") as [->|Hslash]; [cbn in H; discriminate|].
      cbn [negb andb].
      destruct (_ && _ && _ && _) in H; [discriminate|].
      apply IH; [lia | exact H].
Qed.

Lemma unescape_no_slash (mode : Url.encoding) (s t : string) :
  Url.isHostOrZone mode = true ->
  Url.unescape s mode = Ok t -> without "/" t = true.
Proof.
  intros Hmode. unfold Url.unescape.
  destruct (Url.unescapeCheck mode s) eqn:H; [discriminate|].
  intros [= <-]. now apply (unescapeDecode_no_slash (String.length s)).
Qed.

Lemma parseHost_no_slash (host t : string) :
  Url.parseHost host = Ok t -> without "/" t = true.
Proof.
  unfold Url.parseHost.
  assert (Hplain : Url.unescape host Url.encodeHost = Ok t -> without "/" t = true)
    by now apply unescape_no_slash.
  destruct (GoStrings.HasPrefix host "[").
  - destruct (GoStrings.LastIndexByte host "]") as [i|]; [|discriminate].
    destruct (negb _); [discriminate|].
    destruct (GoStrings.Index _ "%25") as [zone|]; [|exact Hplain].
    destruct (Url.unescape (GoStrings.slice host 0 zone) Url.encodeHost)
      as [host1|] eqn:H1; cbn [bind]; [|discriminate].
    destruct (Url.unescape (GoStrings.slice host zone i) Url.encodeZone)
      as [host2|] eqn:H2; cbn [bind]; [|discriminate].
    destruct (Url.unescape (GoStrings.sliceFrom host i) Url.encodeHost)
      as [host3|] eqn:H3; cbn [bind]; [|discriminate].
    intros [= <-].
    apply unescape_no_slash in H1, H2, H3; try reflexivity.
    unfold without in *. now rewrite !allIn_append, H1, H2, H3.
  - destruct (GoStrings.LastIndexByte host ":") as [i|]; [|exact Hplain].
    destruct (negb _); [discriminate | exact Hplain].
Qed.

Lemma parseAuthority_no_slash (authority : string) (uh : option Url.Userinfo * string) :
  Url.parseAuthority authority = Ok uh -> without "/" uh.2 = true.
Proof.
  unfold Url.parseAuthority.
  destruct (GoStrings.LastIndexByte authority "@") as [i|].
  - destruct (Url.parseHost _) as [host|] eqn:Hhost; cbn [bind]; [|discriminate].
    apply parseHost_no_slash in Hhost.
    destruct (negb (Url.validUserinfo _)); [discriminate|].
    destruct (negb (GoStrings.Contains _ ":")).
    + destruct (Url.unescape _ _); cbn [bind]; [|discriminate]. now intros [= <-].
    + destruct (GoStrings.Cut _ ":") as [[name pass] found].
      destruct (Url.unescape name _); cbn [bind]; [|discriminate].
      destruct (Url.unescape pass _); cbn [bind]; [|discriminate]. now intros [= <-].
  - destruct (Url.parseHost _) as [host|] eqn:Hhost; cbn [bind]; [|discriminate].
    apply parseHost_no_slash in Hhost. now intros [= <-].
Qed.

Lemma setPath_Host (u url : Url.URL) (p : string) :
  Url.setPath u p = Ok url -> Url.Host url = Url.Host u.
Proof.
  unfold Url.setPath. destruct (Url.unescape p Url.encodePath); cbn [bind]; [|discriminate].
  now intros [= <-].
Qed.

Lemma parse_Host_no_slash (rawURL : string) (url : Url.URL) :
  Url.parse rawURL = Ok url -> without "/" (Url.Host url) = true.
Proof.
  unfold Url.parse.
  destruct (Url.stringContainsCTLByte rawURL); [discriminate|].
  destruct (String.eqb rawURL "*"); [now intros [= <-]|].
  destruct (Url.getScheme rawURL) as [sr|]; cbn [bind]; [|discriminate].
  destruct (_ && _).
  - destruct (negb _ && negb _); [now intros [= <-]|].
    destruct (negb _ && GoStrings.Contains _ ":"); [discriminate|].
    destruct (_ && GoStrings.HasPrefix _ "//").
    + destruct (GoStrings.Index _ "/") as [i|];
        (destruct (Url.parseAuthority _) as [uh|] eqn:Hauth; cbn [bind]; [|discriminate]);
        intros H; apply setPath_Host in H; rewrite H; cbn;
        now apply parseAuthority_no_slash in Hauth.
    + cbn [bind]. intros H. apply setPath_Host in H. now rewrite H.
  - destruct (GoStrings.Cut _ "?") as [[before after] found].
    destruct (negb _ && negb _); [now intros [= <-]|].
    destruct (negb _ && GoStrings.Contains _ ":"); [discriminate|].
    destruct (_ && GoStrings.HasPrefix _ "//").
    + destruct (GoStrings.Index _ "/") as [i|];
        (destruct (Url.parseAuthority _) as [uh|] eqn:Hauth; cbn [bind]; [|discriminate]);
        intros H; apply setPath_Host in H; rewrite H; cbn;
        now apply parseAuthority_no_slash in Hauth.
    + cbn [bind]. intros H. apply setPath_Host in H. now rewrite H.
Qed.

Lemma Parse_Host_no_slash (rawURL : string) (url : Url.URL) :
  Url.Parse rawURL = Ok url -> without "/" (Url.Host url) = true.
Proof.
  unfold Url.Parse. destruct (GoStrings.Cut rawURL "#") as [[u frag] found].
  destruct (Url.parse u) as [url0|] eqn:Hparse; [|discriminate].
  apply parse_Host_no_slash in Hparse.
  destruct (String.eqb frag EmptyString); [now intros [= <-]|].
  unfold Url.setFragment. destruct (Url.unescape frag _); cbn [bind]; [|discriminate].
  now intros [= <-].
Qed.

Lemma allIn_substring (class : ascii -> bool) (s : string) (n m : nat) :
  allIn class s = true -> allIn class (String.substring n m s) = true.
Proof.
  revert n m. induction s as [|c s IH]; intros n m H.
  - now destruct n, m.
  - simpl in H. apply andb_true_iff in H as [Hc Hs].
    destruct n, m; cbn [String.substring allIn]; auto.
    rewrite Hc. cbn. auto.
Qed.

(** The host name of a parsed URL has no slash. *)
Lemma Hostname_no_slash (rawURL : string) (url : Url.URL) :
  Url.Parse rawURL = Ok url -> without "/" (Url.Hostname url) = true.
Proof.
  intros H. apply Parse_Host_no_slash in H.
  unfold Url.Hostname, Url.splitHostPort, GoStrings.slice, GoStrings.sliceFrom, without in *.
  destruct (GoStrings.LastIndexByte (Url.Host url) ":") as [colon|];
    [destruct (Url.validOptionalPort _)|];
    cbn [fst]; destruct (_ && _); cbn [fst];
    repeat apply allIn_substring; exact H.
Qed.

(** ** Every file lies in the output directory *)

Lemma pathClass_no_slash (c : ascii) :
  pathClass c = true -> negb (Ascii.eqb c "/") = true.
Proof. destruct (Ascii.eqb_spec c "/") as [->|]; [discriminate | reflexivity]. Qed.

(** The replacement of the runes outside a class keeps what holds of every
    byte of the subject and of the replacement. *)
Lemma replaceOutside_keeps (P class : ascii -> bool) (repl s : string) (k : nat) :
  allIn P repl = true -> allIn P s = true ->
  allIn P (Regexp.replaceOutside class repl k s) = true.
Proof.
  intros Hrepl. revert k. induction s as [|c s IH]; intros k H; [reflexivity|].
  simpl in H. apply andb_true_iff in H as [Hc Hs].
  destruct k as [|k]; cbn [Regexp.replaceOutside]; [|now apply IH].
  destruct (_ && class c).
  - simpl. rewrite Hc. now apply IH.
  - rewrite allIn_append, Hrepl. now apply IH.
Qed.

Lemma replaceRuns_without (c : ascii) (repl s : string) (st : bool) :
  without c s = true -> Regexp.replaceRuns c repl st s = s.
Proof.
  unfold without. revert st. induction s as [|d s IH]; intros st H; [reflexivity|].
  simpl in H. apply andb_true_iff in H as [Hd Hs]. apply negb_true_iff in Hd.
  cbn [Regexp.replaceRuns]. rewrite Hd. now rewrite IH.
Qed.

Lemma trimSlash_append_slash (t : string) : trimSlash (t +:+ "/") = t.
Proof.
  induction t as [|c t IH]; [reflexivity|].
  cbn [String.append]. rewrite trimSlash_cons by (destruct t; discriminate).
  now rewrite IH.
Qed.

Lemma endsWith_append (c : ascii) (a b : string) :
  b <> EmptyString -> endsWith c (a +:+ b) = endsWith c b.
Proof.
  intros Hb. induction a as [|x a IH]; [reflexivity|].
  cbn [String.append]. destruct (a +:+ b) eqn:Hab; [|exact IH].
  destruct a; [cbn in Hab; congruence | discriminate].
Qed.

Lemma endsWith_without (c : ascii) (s : string) :
  without c s = true -> endsWith c s = false.
Proof.
  unfold without. induction s as [|x s IH]; [reflexivity|]. intros H.
  simpl in H. apply andb_true_iff in H as [Hx Hs]. apply negb_true_iff in Hx.
  destruct s; [exact Hx | now apply IH].
Qed.

(** The passes over a composed path, by the part before a slash and the part
    after it. *)
Lemma cleanSavePath_split (a b : string) :
  cleanSavePath (a +:+ String "/" b)
  = trimSlash
      (cleanSavePath a
       +:+ String "/"
             (Regexp.replaceRuns "/" "/" true
                (Regexp.replaceRuns "-" "-" false
                   (Regexp.replaceOutside savePathClass "-" 0 b)))).
Proof.
  unfold cleanSavePath, Regexp.ReplaceAllOutside, Regexp.ReplaceAllRuns.
  rewrite !TrimSuffix_slash.
  rewrite replaceOutside_append by (reflexivity || lia).
  change (Regexp.replaceOutside savePathClass "-" 0 (String "/" b))
    with (String "/" (Regexp.replaceOutside savePathClass "-" 0 b)).
  rewrite replaceRuns_append_other by reflexivity.
  pose proof (replaceSlashRuns_append
                (Regexp.replaceRuns "-" "-" false (Regexp.replaceOutside savePathClass "-" 0 a))
                (Regexp.replaceRuns "-" "-" false (Regexp.replaceOutside savePathClass "-" 0 b))
                false) as H.
  cbn [pendingSlash String.append] in H. now rewrite H.
Qed.

Lemma replaceOutside_empty (class : ascii -> bool) (s : string) :
  Regexp.replaceOutside class "-" 0 s = EmptyString -> s = EmptyString.
Proof.
  destruct s as [|c s]; [reflexivity|]. cbn [Regexp.replaceOutside].
  destruct (_ && class c); discriminate.
Qed.

Lemma replaceRuns_empty (c : ascii) (s : string) :
  Regexp.replaceRuns c (String c EmptyString) false s = EmptyString -> s = EmptyString.
Proof.
  destruct s as [|d s]; [reflexivity|]. cbn [Regexp.replaceRuns].
  destruct (Ascii.eqb d c); discriminate.
Qed.

Lemma append_empty (a b : string) :
  a +:+ b = EmptyString -> a = EmptyString /\ b = EmptyString.
Proof. destruct a; [auto | discriminate]. Qed.

(** X13: the path that [makeFilepath] returns is the cleaned output directory
    followed by one slash and a name that is not empty and has no slash,
    whatever the depth of the path of the URL; except when the URL has
    neither host nor path: then the name is empty and the path is the cleaned
    directory alone, so that the image, with [.png], lies beside the
    directory and not in it. *)
Theorem makeFilepath_flat (prefix requestURL path : string) :
  makeFilepath prefix requestURL = Ok path ->
  exists u name,
    Url.Parse requestURL = Ok u
    /\ without "/" name = true
    /\ (name = EmptyString
        <-> Url.Hostname u = EmptyString /\ Url.EscapedPath u = EmptyString)
    /\ path = if String.eqb name EmptyString then cleanSavePath prefix
              else cleanSavePath prefix +:+ "/" +:+ name.
Proof.
  unfold makeFilepath.
  destruct (Url.Parse requestURL) as [u|e] eqn:Hparse; [|discriminate].
  cbn [bind]. intros [= <-].
  set (requestPath := Regexp.ReplaceAllOutside pathClass _ "-").
  assert (Hname : without "/" (Url.Hostname u +:+ requestPath) = true).
  { unfold without. rewrite allIn_append.
    rewrite (Hostname_no_slash _ _ Hparse : allIn _ _ = true).
    apply replaceOutside_allIn; [apply pathClass_no_slash | reflexivity]. }
  change (prefix +:+ "/" +:+ Url.Hostname u +:+ requestPath)
    with (prefix +:+ String "/" (Url.Hostname u +:+ requestPath)).
  rewrite cleanSavePath_split.
  set (name := Regexp.replaceRuns "-" "-" false _).
  assert (Hclean : without "/" name = true).
  { apply replaceRuns_allIn; [reflexivity|].
    apply replaceOutside_keeps; [reflexivity | exact Hname]. }
  exists u, name. split; [reflexivity|]. split; [exact Hclean|]. split.
  - split.
    + intros Hempty. subst name.
      apply replaceRuns_empty, replaceOutside_empty, append_empty in Hempty
        as [Hhost Hpath].
      split; [exact Hhost|]. subst requestPath.
      apply replaceOutside_empty in Hpath.
      destruct (String.eqb (Url.EscapedPath u) "/"); [discriminate | exact Hpath].
    + intros [Hhost Hpath]. subst name requestPath. now rewrite Hhost, Hpath.
  - rewrite (replaceRuns_without "/" "/" name true Hclean).
    destruct (String.eqb_spec name EmptyString) as [->|Hne].
    + apply (trimSlash_append_slash (cleanSavePath prefix)).
    + apply trimSlash_id.
      change (cleanSavePath prefix +:+ String "/" name)
        with (cleanSavePath prefix +:+ (String "/" name)).
      rewrite endsWith_append by discriminate.
      destruct name as [|c name]; [congruence|].
      now apply (endsWith_without "/" (String c name)).
Qed.

Lemma makeFilepath_flat_witness :
  exists u name,
    Url.Parse "http://example.com/a/b/c.html" = Ok u
    /\ without "/" name = true
    /\ (name = EmptyString
        <-> Url.Hostname u = EmptyString /\ Url.EscapedPath u = EmptyString)
    /\ "out/example.com-a-b-c.html"
       = if String.eqb name EmptyString then cleanSavePath "out"
         else cleanSavePath "out" +:+ "/" +:+ name.
Proof.
  apply (makeFilepath_flat "out" "http://example.com/a/b/c.html").
  vm_compute. reflexivity.
Defined.

(** A URL without host and path: the image lies beside the directory. *)
Example makeFilepath_beside_directory :
  makeFilepath "out" "mailto:joe@example.com" = Ok "out"
  /\ makeFilepath "out" EmptyString = Ok "out".
Proof. split; vm_compute; reflexivity. Qed.

(** ** What the path does not depend on *)

Lemma length_append (a b : string) :
  String.length (a +:+ b) = String.length a + String.length b.
Proof. induction a as [|x a IH]; simpl; [reflexivity | now rewrite IH]. Qed.

Lemma substring_all (s : string) : String.substring 0 (String.length s) s = s.
Proof. induction s as [|x s IH]; simpl; [reflexivity | now rewrite IH]. Qed.

Lemma substring_zero (s : string) : String.substring 0 0 s = EmptyString.
Proof. now destruct s. Qed.

Lemma substring_none (s : string) (n : nat) : String.substring n 0 s = EmptyString.
Proof.
  revert n. induction s as [|x s IH]; intros n; [now destruct n|].
  destruct n; [reflexivity | apply IH].
Qed.

(** A slice that ends inside the first part of a string. *)
Lemma substring_append_le (a r : string) (k m : nat) :
  k + m <= String.length a ->
  String.substring k m (a +:+ r) = String.substring k m a.
Proof.
  revert k m. induction a as [|x a IH]; intros k m H; simpl in H.
  - assert (k = 0) as -> by lia. assert (m = 0) as -> by lia.
    cbn [String.append]. now rewrite !substring_zero.
  - cbn [String.append]. destruct k as [|k].
    + destruct m as [|m]; [reflexivity|]. cbn [String.substring].
      rewrite IH by lia. reflexivity.
    + cbn [String.substring]. apply IH. lia.
Qed.

Lemma sliceFrom_zero (s : string) : GoStrings.sliceFrom s 0 = s.
Proof. unfold GoStrings.sliceFrom. rewrite Nat.sub_0_r. apply substring_all. Qed.

Lemma sliceFrom_succ (x : ascii) (s : string) (k : nat) :
  GoStrings.sliceFrom (String x s) (S k) = GoStrings.sliceFrom s k.
Proof. reflexivity. Qed.

(** A slice that starts inside the first part and runs to the end. *)
Lemma sliceFrom_append (a r : string) (k : nat) :
  k <= String.length a ->
  GoStrings.sliceFrom (a +:+ r) k = GoStrings.sliceFrom a k +:+ r.
Proof.
  revert k. induction a as [|x a IH]; intros k H; simpl in H.
  - assert (k = 0) as -> by lia. now rewrite !sliceFrom_zero.
  - destruct k as [|k]; [now rewrite !sliceFrom_zero|].
    cbn [String.append]. rewrite !sliceFrom_succ. apply IH. lia.
Qed.

Lemma index_byte_none (c : ascii) (a : string) :
  without c a = true -> String.index 0 (String c EmptyString) a = None.
Proof.
  unfold without. induction a as [|x a IH]; [reflexivity|]. intros H.
  simpl in H. apply andb_true_iff in H as [Hx Ha].
  apply negb_true_iff, Ascii.eqb_neq in Hx.
  cbn [String.index String.prefix].
  destruct (ascii_dec c x); [congruence|]. now rewrite IH.
Qed.

Lemma index_byte_append (c : ascii) (a b : string) :
  without c a = true ->
  String.index 0 (String c EmptyString) (a +:+ String c b) = Some (String.length a).
Proof.
  unfold without. induction a as [|x a IH]; intros H.
  - cbn [String.append String.index String.prefix].
    destruct (ascii_dec c c); [|congruence]. now destruct b.
  - simpl in H. apply andb_true_iff in H as [Hx Ha].
    apply negb_true_iff, Ascii.eqb_neq in Hx.
    cbn [String.append String.index String.prefix].
    destruct (ascii_dec c x); [congruence|]. now rewrite IH.
Qed.

(** [Cut] around the first instance of a byte. *)
Lemma Cut_append (c : ascii) (a b : string) :
  without c a = true ->
  GoStrings.Cut (a +:+ String c b) (String c EmptyString) = (a, b, true).
Proof.
  intros H. unfold GoStrings.Cut, GoStrings.Index. rewrite index_byte_append by assumption.
  unfold GoStrings.slice. rewrite Nat.sub_0_r.
  rewrite substring_append_le by lia. rewrite substring_all.
  change (String c b) with (String c EmptyString +:+ b).
  rewrite <- append_assoc.
  rewrite sliceFrom_append by (rewrite length_append; simpl; lia).
  unfold GoStrings.sliceFrom.
  replace (String.length (a +:+ String c EmptyString)
           - (String.length a + String.length (String c EmptyString))) with 0
    by (rewrite length_append; simpl; lia).
  now rewrite substring_none.
Qed.

Lemma Cut_none (c : ascii) (a : string) :
  without c a = true ->
  GoStrings.Cut a (String c EmptyString) = (a, EmptyString, false).
Proof.
  intros H. unfold GoStrings.Cut, GoStrings.Index. now rewrite index_byte_none.
Qed.

(** X14: the fragment of a URL has no part in the path: for a URL without
    [#] and a fragment whose escapes are well formed, [makeFilepath] returns
    for the URL with the fragment what it returns for the URL alone, path or
    error. *)
Theorem makeFilepath_ignores_fragment (prefix requestURL fragment : string) :
  without "#" requestURL = true ->
  Url.unescapeCheck Url.encodeFragment fragment = None ->
  makeFilepath prefix (requestURL +:+ "#" +:+ fragment) = makeFilepath prefix requestURL.
Proof.
  intros Hurl Hfrag. unfold makeFilepath, Url.Parse.
  change (requestURL +:+ "#" +:+ fragment) with (requestURL +:+ String "#" fragment).
  rewrite (Cut_append "#" requestURL fragment Hurl), (Cut_none "#" requestURL Hurl).
  destruct (Url.parse requestURL) as [url|e]; [|reflexivity].
  rewrite String.eqb_refl.
  destruct (String.eqb fragment EmptyString); [reflexivity|].
  unfold Url.setFragment, Url.unescape. rewrite Hfrag. reflexivity.
Qed.

Lemma makeFilepath_ignores_fragment_witness :
  makeFilepath "out" ("http://example.com/a" +:+ "#" +:+ "top%20part")
  = makeFilepath "out" "http://example.com/a".
Proof.
  apply (makeFilepath_ignores_fragment "out" "http://example.com/a" "top%20part");
    reflexivity.
Defined.

Lemma CTL_append (a b : string) :
  Url.stringContainsCTLByte (a +:+ b)
  = Url.stringContainsCTLByte a || Url.stringContainsCTLByte b.
Proof.
  induction a as [|x a IH]; [reflexivity|].
  cbn [String.append Url.stringContainsCTLByte]. rewrite IH. now rewrite orb_assoc.
Qed.

Lemma without_append (c : ascii) (a b : string) :
  without c (a +:+ b) = without c a && without c b.
Proof. apply allIn_append. Qed.

Lemma CountByte_append (c : ascii) (a b : string) :
  GoStrings.CountByte (a +:+ b) c = GoStrings.CountByte a c + GoStrings.CountByte b c.
Proof.
  induction a as [|x a IH]; [reflexivity|].
  cbn [String.append GoStrings.CountByte]. rewrite IH. lia.
Qed.

Lemma CountByte_without (c : ascii) (a : string) :
  without c a = true -> GoStrings.CountByte a c = 0.
Proof.
  unfold without. induction a as [|x a IH]; [reflexivity|]. intros H.
  simpl in H. apply andb_true_iff in H as [Hx Ha]. apply negb_true_iff in Hx.
  cbn [GoStrings.CountByte]. rewrite Hx, IH by assumption. reflexivity.
Qed.

Lemma endsWith_count (c : ascii) (s : string) :
  endsWith c s = true -> 1 <= GoStrings.CountByte s c.
Proof.
  induction s as [|x s IH]; [discriminate|]. intros H.
  cbn [GoStrings.CountByte]. destruct s as [|y s].
  - cbn in H. rewrite H. simpl. lia.
  - specialize (IH H). lia.
Qed.

Lemma HasSuffix_byte (c : ascii) (s : string) :
  GoStrings.HasSuffix s (String c EmptyString) = endsWith c s.
Proof.
  induction s as [|x s IH]; [reflexivity|]. destruct s as [|y s].
  - unfold GoStrings.HasSuffix, GoStrings.sliceFrom. simpl.
    now destruct (Ascii.eqb x c).
  - change (endsWith c (String x (String y s))) with (endsWith c (String y s)).
    rewrite <- IH. unfold GoStrings.HasSuffix, GoStrings.sliceFrom. simpl.
    rewrite !Nat.sub_0_r. reflexivity.
Qed.

Lemma getSchemeFrom_append (u q : string) (i : nat) :
  Url.getSchemeFrom i (u +:+ String "?" q) = Url.getSchemeFrom i u.
Proof.
  revert i. induction u as [|c u IH]; intros i; [reflexivity|].
  cbn [String.append Url.getSchemeFrom]. now rewrite !IH.
Qed.

Lemma getSchemeFrom_bound (u : string) (i k : nat) :
  Url.getSchemeFrom i u = Ok (Some k) -> i <= k < i + String.length u.
Proof.
  revert i. induction u as [|c u IH]; intros i; [discriminate|].
  cbn [Url.getSchemeFrom String.length].
  destruct (isLower c || isUpper c).
  { intros H. apply IH in H. lia. }
  destruct (isDigit c || oneOf "+-." c).
  { destruct (Nat.eqb i 0); [discriminate|]. intros H. apply IH in H. lia. }
  destruct (Ascii.eqb c ":"); [|discriminate].
  destruct (Nat.eqb i 0); [discriminate|]. intros [= <-]. lia.
Qed.

(** The scheme of a URL does not depend on what follows a question mark. *)
Lemma getScheme_append (u q scheme rest : string) :
  without "?" u = true ->
  Url.getScheme u = Ok (scheme, rest) ->
  Url.getScheme (u +:+ String "?" q) = Ok (scheme, rest +:+ String "?" q)
  /\ without "?" rest = true.
Proof.
  intros Hu. unfold Url.getScheme. rewrite getSchemeFrom_append.
  destruct (Url.getSchemeFrom 0 u) as [[k|]|] eqn:Hk; cbn [bind]; [| |discriminate].
  - apply getSchemeFrom_bound in Hk. intros [= <- <-]. split.
    + unfold GoStrings.slice. rewrite substring_append_le by lia.
      now rewrite sliceFrom_append by lia.
    + now apply allIn_substring.
  - intros [= <- <-]. auto.
Qed.

(** The part of a URL before its query, with the query and without. *)
Lemma query_split (rest q : string) :
  without "?" rest = true ->
  GoStrings.HasSuffix rest "?" = false
  /\ GoStrings.Cut rest "?" = (rest, EmptyString, false)
  /\ (GoStrings.HasSuffix (rest +:+ String "?" q) "?"
      && Nat.eqb (GoStrings.CountByte (rest +:+ String "?" q) "?") 1 = true ->
      GoStrings.slice (rest +:+ String "?" q) 0
        (String.length (rest +:+ String "?" q) - 1) = rest)
  /\ GoStrings.Cut (rest +:+ String "?" q) "?" = (rest, q, true).
Proof.
  intros Hrest. split; [|split; [|split]].
  - rewrite HasSuffix_byte. now apply endsWith_without.
  - now apply Cut_none.
  - intros H. apply andb_true_iff in H as [Hend Hcount].
    apply Nat.eqb_eq in Hcount.
    rewrite CountByte_append, (CountByte_without _ _ Hrest) in Hcount.
    cbn [GoStrings.CountByte] in Hcount. rewrite Ascii.eqb_refl in Hcount.
    rewrite HasSuffix_byte, endsWith_append in Hend by discriminate.
    assert (q = EmptyString) as ->.
    { destruct q as [|y q]; [reflexivity|].
      change (endsWith "?" (String "?" (String y q))) with (endsWith "?" (String y q)) in Hend.
      apply endsWith_count in Hend. lia. }
    unfold GoStrings.slice. rewrite length_append. cbn [String.length].
    replace (String.length rest + 1 - 1 - 0) with (String.length rest) by lia.
    rewrite substring_append_le by lia. apply substring_all.
  - now apply Cut_append.
Qed.

Lemma eqb_query_star (u q : string) : String.eqb (u +:+ String "?" q) "*" = false.
Proof.
  apply String.eqb_neq. destruct u as [|x [|y u]]; cbn [String.append]; congruence.
Qed.

(** A URL other than ["*"] parses with a query as it does without, up to the
    query. *)
Lemma parse_query (u q : string) (url : Url.URL) :
  without "?" u = true ->
  Url.stringContainsCTLByte q = false ->
  u <> "*" ->
  Url.parse u = Ok url ->
  exists url',
    Url.parse (u +:+ String "?" q) = Ok url'
    /\ Url.Host url' = Url.Host url
    /\ Url.Path url' = Url.Path url
    /\ Url.RawPath url' = Url.RawPath url.
Proof.
  intros Hu Hq Hstar. unfold Url.parse.
  rewrite CTL_append. cbn [Url.stringContainsCTLByte]. rewrite Hq.
  destruct (Url.stringContainsCTLByte u); [discriminate|]. cbn [orb].
  rewrite eqb_query_star.
  destruct (String.eqb_spec u "*") as [|_]; [congruence|].
  destruct (Url.getScheme u) as [[scheme rest]|] eqn:Hscheme; cbn [bind]; [|discriminate].
  destruct (getScheme_append u q scheme rest Hu Hscheme) as [Hscheme' Hrest].
  rewrite Hscheme'. cbn [bind fst snd].
  destruct (query_split rest q Hrest) as (Hsuffix & Hcut & Hforce & Hcut').
  rewrite Hsuffix, Hcut. cbn [andb].
  destruct (GoStrings.HasSuffix (rest +:+ String "?" q) "?" && _) eqn:Hcond.
  - rewrite (Hforce eq_refl).
    destruct (negb _ && negb _); [intros [= <-]; eexists; split; [reflexivity | auto]|].
    destruct (negb _ && GoStrings.Contains _ ":"); [discriminate|].
    destruct (_ && GoStrings.HasPrefix rest "//").
    + destruct (GoStrings.Index _ "/") as [i|];
        (destruct (Url.parseAuthority _) as [uh|]; cbn [bind]; [|discriminate]);
        unfold Url.setPath;
        (destruct (Url.unescape _ Url.encodePath); cbn [bind]; [|discriminate]);
        intros [= <-]; eexists; (split; [reflexivity | auto]).
    + cbn [bind]. unfold Url.setPath.
      destruct (Url.unescape _ Url.encodePath); cbn [bind]; [|discriminate].
      intros [= <-]; eexists; (split; [reflexivity | auto]).
  - rewrite Hcut'.
    destruct (negb _ && negb _); [intros [= <-]; eexists; split; [reflexivity | auto]|].
    destruct (negb _ && GoStrings.Contains _ ":"); [discriminate|].
    destruct (_ && GoStrings.HasPrefix rest "//").
    + destruct (GoStrings.Index _ "/") as [i|];
        (destruct (Url.parseAuthority _) as [uh|]; cbn [bind]; [|discriminate]);
        unfold Url.setPath;
        (destruct (Url.unescape _ Url.encodePath); cbn [bind]; [|discriminate]);
        intros [= <-]; eexists; (split; [reflexivity | auto]).
    + cbn [bind]. unfold Url.setPath.
      destruct (Url.unescape _ Url.encodePath); cbn [bind]; [|discriminate].
      intros [= <-]; eexists; (split; [reflexivity | auto]).
Qed.

(** The URL ["*"] with a query has the escaped path ["*"] and no host, as
    without the query. *)
Lemma parse_star_query (q : string) :
  Url.stringContainsCTLByte q = false ->
  exists url',
    Url.parse ("*" +:+ String "?" q) = Ok url'
    /\ Url.Hostname url' = EmptyString
    /\ Url.EscapedPath url' = "*".
Proof.
  intros Hq. unfold Url.parse.
  rewrite CTL_append. cbn [Url.stringContainsCTLByte]. rewrite Hq.
  change (Url.stringContainsCTLByte "*") with false. cbn [orb].
  rewrite eqb_query_star.
  change (Url.getScheme ("*" +:+ String "?" q))
    with (@Ok Url.parseError _ (EmptyString, "*" +:+ String "?" q)).
  cbn [bind fst snd].
  destruct (query_split "*" q eq_refl) as (_ & _ & Hforce & Hcut').
  destruct (GoStrings.HasSuffix ("*" +:+ String "?" q) "?" && _) eqn:Hcond.
  - rewrite (Hforce eq_refl). eexists. split; [reflexivity|]. split; reflexivity.
  - rewrite Hcut'. eexists. split; [reflexivity|]. split; reflexivity.
Qed.

(** X15: the query of a URL has no part in the path: for a URL without [?]
    and [#] that [makeFilepath] accepts, and a query without [#] and without
    ASCII control character, the URL with the query gets the same path. *)
Theorem makeFilepath_ignores_query (prefix requestURL query path : string) :
  without "?" requestURL = true ->
  without "#" requestURL = true ->
  without "#" query = true ->
  Url.stringContainsCTLByte query = false ->
  makeFilepath prefix requestURL = Ok path ->
  makeFilepath prefix (requestURL +:+ "?" +:+ query) = Ok path.
Proof.
  intros Hu Hhash Hqhash Hq. unfold makeFilepath, Url.Parse.
  change (requestURL +:+ "?" +:+ query) with (requestURL +:+ String "?" query).
  rewrite (Cut_none "#" requestURL Hhash).
  rewrite (Cut_none "#" (requestURL +:+ String "?" query))
    by (rewrite without_append, Hhash; exact Hqhash).
  rewrite String.eqb_refl.
  destruct (String.eqb_spec requestURL "*") as [->|Hstar].
  - destruct (parse_star_query query Hq) as (url' & -> & Hhost & Hpath).
    cbn [bind]. rewrite Hhost, Hpath. intros H. exact H.
  - destruct (Url.parse requestURL) as [url|] eqn:Hparse; cbn [bind]; [|discriminate].
    destruct (parse_query requestURL query url Hu Hq Hstar Hparse)
      as (url' & -> & Hhost & Hpath & Hraw).
    cbn [bind]. unfold Url.EscapedPath, Url.Hostname.
    now rewrite Hhost, Hpath, Hraw.
Qed.

Lemma makeFilepath_ignores_query_witness :
  makeFilepath "out" ("http://example.com/list" +:+ "?" +:+ "page=2")
  = Ok "out/example.com-list".
Proof.
  apply (makeFilepath_ignores_query "out" "http://example.com/list" "page=2");
    vm_compute; reflexivity.
Defined.

(** ** What a run leaves alone *)

Lemma HasSuffix_append (x suffix : string) :
  GoStrings.HasSuffix (x +:+ suffix) suffix = true.
Proof.
  unfold GoStrings.HasSuffix. rewrite length_append.
  apply andb_true_iff. split; [apply Nat.leb_le; lia|].
  replace (String.length x + String.length suffix - String.length suffix)
    with (String.length x) by lia.
  rewrite sliceFrom_append by lia.
  unfold GoStrings.sliceFrom. rewrite Nat.sub_diag, substring_none.
  apply String.eqb_refl.
Qed.

Section Frame.
Context {lib : Library} (cfg : Flags).

(** The worker's loop body changes no directory and nothing of what the
    system refuses, and no file other than the log and the image. *)
Lemma finishJob_frame (u : string) (r : result error string) (w : World) :
  dirs (finishJob cfg u r w).2 = dirs w
  /\ refused (finishJob cfg u r w).2 = refused w
  /\ forall path, path <> "errorLog.txt" -> GoStrings.HasSuffix path ".png" = false ->
       files (finishJob cfg u r w).2 !! path = files w !! path.
Proof.
  unfold finishJob.
  destruct r as [buf|err].
  - destruct (makeFilepath (output cfg) u) as [file|e].
    + unfold Os.WriteFile, Os.OpenFile.
      destruct (Os.isRefused w _); [|destruct (Os.isDir w _)]; cbn [snd];
        try (pose proof (handleError_effects
                           (PathError "open" (file +:+ ".png") "permission denied") u w)
               as (_ & _ & _ & ? & ? & ? & _); now auto);
        try (pose proof (handleError_effects
                           (PathError "open" (file +:+ ".png") "is a directory") u w)
               as (_ & _ & _ & ? & ? & ? & _); now auto).
      unfold Os.Write, setFiles. cbn. repeat split.
      intros path _ Hpng. rewrite !lookup_insert_ne; [reflexivity| |];
        intros <-; now rewrite HasSuffix_append in Hpng.
    + cbn [snd]. pose proof (handleError_effects (UrlError e) u w)
        as (_ & _ & _ & ? & ? & ? & _). now auto.
  - cbn [snd]. pose proof (handleError_effects err u w) as (_ & _ & _ & ? & ? & ? & _).
    now auto.
Qed.

Lemma step_frame (s s' : Pool) :
  step cfg s s' ->
  dirs (world s') = dirs (world s)
  /\ refused (world s') = refused (world s)
  /\ forall path, path <> "errorLog.txt" -> GoStrings.HasSuffix path ".png" = false ->
       files (world s') !! path = files (world s) !! path.
Proof.
  intros H.
  destruct H as [u rest ws w att res | ws w att res
                | i now u rest ws w att res Hi
                | i u ctx started browser r p ws w att res Hi Hrun
                | i ws w att res Hi | ws w att res Hall];
    cbn [world]; auto.
  apply finishJob_frame.
Qed.


End Frame.


Lemma prefix_append (a b : string) : String.prefix a (a +:+ b) = true.
Proof.
  induction a as [|x a IH]; [now destruct b|].
  cbn [String.append String.prefix]. destruct (ascii_dec x x); [assumption | congruence].
Qed.

(** X17: when the log can be opened, [handleError] keeps what the log held and
    writes the line of the failure right after it: no earlier record is lost
    or changed. *)
Theorem handleError_keeps_log {lib : Library} (err : error) (url : string) (w : World) :
  Os.isRefused w "errorLog.txt" = false ->
  Os.isDir w "errorLog.txt" = false ->
  String.prefix (Os.content w "errorLog.txt" +:+ failureLine err url)
    (Os.content (handleError err url w) "errorLog.txt") = true.
Proof.
  intros Href Hdir. unfold Os.content at 2.
  rewrite (handleError_log err url w Href Hdir), lookup_insert_eq. cbn [default].
  unfold failureLine. set (line := "run error: " +:+ _).
  rewrite <- (append_assoc _ line LF). apply prefix_append.
Qed.

Lemma handleError_keeps_log_witness :
  String.prefix
    (Os.content inputWorld "errorLog.txt"
     +:+ failureLine (lib := plainLibrary) DeadlineExceeded "http://example.com/")
    (Os.content
       (handleError (lib := plainLibrary) DeadlineExceeded "http://example.com/" inputWorld)
       "errorLog.txt") = true.
Proof.
  apply (handleError_keeps_log (lib := plainLibrary) DeadlineExceeded
           "http://example.com/" inputWorld); reflexivity.
Defined.

(** An empty URL has neither host nor path. *)
Lemma Parse_empty :
  exists u, Url.Parse EmptyString = Ok u
    /\ Url.Hostname u = EmptyString /\ Url.EscapedPath u = EmptyString.
Proof. eexists. split; [vm_compute; reflexivity|]. split; vm_compute; reflexivity. Qed.

(** C7, amended: [makeFilepath] returns an error exactly when [url.Parse]
    refuses the URL, and then it is the error of the parser and no path; for
    every URL that the parser accepts it returns a path.  A URL with an ASCII
    control character before its fragment is refused; the empty string is
    accepted, and its path is the cleaned output directory. *)
Theorem makeFilepath_unparseable (prefix requestURL : string) :
  (forall e, makeFilepath prefix requestURL = Err e <-> Url.Parse requestURL = Err e)
  /\ (forall u, Url.Parse requestURL = Ok u ->
      exists path, makeFilepath prefix requestURL = Ok path)
  /\ (Url.stringContainsCTLByte (fst (fst (GoStrings.Cut requestURL "#"))) = true ->
      makeFilepath prefix requestURL
      = Err (Url.mkError "parse" (fst (fst (GoStrings.Cut requestURL "#")))
               Url.InvalidControlCharacter))
  /\ makeFilepath prefix EmptyString = Ok (cleanSavePath prefix).
Proof.
  split; [|split; [|split]].
  - intros e. unfold makeFilepath, bind.
    destruct (Url.Parse requestURL); split; congruence.
  - intros u Hu. unfold makeFilepath, bind. rewrite Hu. eexists. reflexivity.
  - intros H. unfold makeFilepath, bind.
    now rewrite (Parse_control_character requestURL H).
  - destruct Parse_empty as (u & Hu & Hhost & Hpath).
    unfold makeFilepath. rewrite Hu. cbn [bind]. rewrite Hhost, Hpath. f_equal.
    change (prefix +:+ "/" +:+ EmptyString +:+ _) with (prefix +:+ String "/" EmptyString).
    rewrite cleanSavePath_split.
    apply (trimSlash_append_slash (cleanSavePath prefix)).
Qed.

(** ** [makeFilepath] reads and writes no state *)

(** The call of [makeFilepath] returns the value of the function and leaves
    the world as it is. *)
Lemma makeFilepathIO_pure (prefix requestURL : string) (w : World) :
  makeFilepathIO prefix requestURL w = (makeFilepath prefix requestURL, w).
Proof.
  unfold makeFilepathIO, makeFilepath, andThen, pureCall, bind.
  destruct (Url.Parse requestURL); reflexivity.
Qed.


Section Deadline.
Context {lib : Library} (cfg : Flags).

(** C6: every capture of a reachable state of the pool runs under a context
    whose deadline lies 20 seconds after the creation of the context;
    [chromedp.Run] returns whatever the browser does, and when the browser
    overruns the 20 seconds it returns the deadline error; the worker then
    records the failure, its line on the standard error and, when the log
    can be opened, after what the log held, and waits for the next job. *)
Theorem capture_deadline (urls : list string) (w : World) (n i : nat) (s : Pool)
    (u : string) (ctx : Chromedp.Ctx) (started : Z) :
  steps cfg n (initPool cfg urls w) s ->
  workers s !! i = Some (Running u ctx started) ->
  Chromedp.deadline ctx = Some (started + Chromedp.Second * 20)%Z
  /\ (forall browser, exists r,
        Chromedp.Run ctx started (fullScreenshot u 90) browser = Some r)
  /\ forall browser, overruns (browser (fullScreenshot u 90)) (Chromedp.Second * 20) ->
       Chromedp.Run ctx started (fullScreenshot u 90) browser = Some (Err DeadlineExceeded)
       /\ step cfg s
            (mkPool (pc s) (<[i := Receiving]> (workers s))
               (handleError DeadlineExceeded u (world s)) (attempts s)
               (resolved s ++ [(u, Failed DeadlineExceeded)]))
       /\ <[i := Receiving]> (workers s) !! i = Some Receiving
       /\ stderr (handleError DeadlineExceeded u (world s))
          = stderr (world s)
            +:+ "run error: context deadline exceeded ------ " +:+ u +:+ LF
       /\ (Os.isRefused (world s) "errorLog.txt" = false ->
           Os.isDir (world s) "errorLog.txt" = false ->
           String.prefix
             (Os.content (world s) "errorLog.txt"
              +:+ "run error: context deadline exceeded ------ " +:+ u +:+ LF)
             (Os.content (handleError DeadlineExceeded u (world s)) "errorLog.txt")
           = true).
Proof.
  intros Hrun Hi.
  pose proof (poolInv_steps cfg urls w n s Hrun) as [_ _ _ _ _ _ Hctx].
  rewrite Forall_lookup in Hctx. specialize (Hctx _ _ Hi). cbn in Hctx. subst ctx.
  split; [reflexivity|]. split.
  { intros browser. unfold Chromedp.Run.
    destruct (browser _) as [elapsed r|]; eexists; reflexivity. }
  intros browser Hb.
  assert (Hr : Chromedp.Run (jobContext started) started (fullScreenshot u 90) browser
               = Some (Err DeadlineExceeded)).
  { unfold Chromedp.Run.
    destruct (browser _) as [elapsed r|]; [|reflexivity].
    cbn in Hb |- *.
    destruct (Z.ltb_spec (started + elapsed) (started + Chromedp.Second * 20));
      [lia | reflexivity]. }
  split; [exact Hr|]. split; [|split; [|split]].
  - destruct s as [p ws w0 att res]. cbn [pc workers world attempts resolved] in *.
    apply (step_finish cfg i u _ _ browser (Err DeadlineExceeded) p ws w0 att res Hi Hr).
  - apply list_lookup_insert_eq. eapply lookup_lt_Some; eauto.
  - exact (proj1 (handleError_effects DeadlineExceeded u (world s))).
  - intros Href Hdir. unfold Os.content at 2.
    rewrite (handleError_log DeadlineExceeded u (world s) Href Hdir), lookup_insert_eq.
    cbn [default errorText].
    set (line := "run error: " +:+ _).
    change ("run error: context deadline exceeded ------ " +:+ u +:+ LF) with line.
    rewrite <- (append_assoc _ line LF). apply prefix_append.
Qed.

End Deadline.

Lemma capture_deadline_witness :
  Chromedp.deadline (jobContext 5) = Some (5 + Chromedp.Second * 20)%Z
  /\ (forall browser, exists r,
        Chromedp.Run (jobContext 5) 5 (fullScreenshot "http://example.com/" 90) browser
        = Some r)
  /\ forall browser,
       overruns (browser (fullScreenshot "http://example.com/" 90)) (Chromedp.Second * 20) ->
       Chromedp.Run (jobContext 5) 5 (fullScreenshot "http://example.com/" 90) browser
       = Some (Err DeadlineExceeded)
       /\ step (lib := plainLibrary) Flag.defaults capturingPool
            (mkPool (pc capturingPool) (<[0 := Receiving]> (workers capturingPool))
               (handleError (lib := plainLibrary) DeadlineExceeded "http://example.com/"
                  (world capturingPool))
               (attempts capturingPool)
               (resolved capturingPool
                ++ [("http://example.com/", Failed DeadlineExceeded)]))
       /\ <[0 := Receiving]> (workers capturingPool) !! 0 = Some Receiving
       /\ stderr (handleError (lib := plainLibrary) DeadlineExceeded "http://example.com/"
                    (world capturingPool))
          = stderr (world capturingPool)
            +:+ "run error: context deadline exceeded ------ "
            +:+ "http://example.com/" +:+ LF
       /\ (Os.isRefused (world capturingPool) "errorLog.txt" = false ->
           Os.isDir (world capturingPool) "errorLog.txt" = false ->
           String.prefix
             (Os.content (world capturingPool) "errorLog.txt"
              +:+ "run error: context deadline exceeded ------ "
              +:+ "http://example.com/" +:+ LF)
             (Os.content
                (handleError (lib := plainLibrary) DeadlineExceeded "http://example.com/"
                   (world capturingPool)) "errorLog.txt")
           = true).
Proof.
  apply (capture_deadline (lib := plainLibrary) Flag.defaults
           ["http://example.com/"] emptyWorld 2 0 capturingPool
           "http://example.com/" (jobContext 5) 5).
  - exact capturingPool_reached.
  - reflexivity.
Defined.
